(** * AiogramStorages: the FSM storages over SQLite and PostgreSQL

    A shallow embedding of [aiogram_storages.py]: the two storage classes
    [SQLiteStorage] and [PGStorage], the three tables they keep and the SQL
    statements they send, followed by the properties of the storage
    contract. *)

From Stdlib Require Import Ascii DecimalString DecimalZ.
From stdpp Require Import gmap strings list fin_maps.

Open Scope Z_scope.

(** ** Python values *)

(** The JSON-compatible values that travel through [jsonpickle]: [None],
    booleans, integers, floats, strings, lists and string-keyed
    dictionaries.  A dictionary keeps its insertion order, as the Python
    [dict] does.  A float is a finite one, given by the decimal number
    that Python writes for it: its sign, its digits and its exponent of
    ten.  JSON has no text for the infinities and for the values that are
    not numbers. *)
#[warnings="-register-all"]
Inductive value : Type :=
  | VNone
  | VBool (b : bool)
  | VInt (n : Z)
  | VFloat (negative : bool) (digits : N) (exponent : Z)
  | VStr (s : string)
  | VList (items : list value)
  | VDict (entries : list (string * value)).

Abbreviation dict := (list (string * value)).

(** Python truthiness, as tested by [if data:] and by [default or {}]. *)
Definition truthy (v : value) : bool :=
  match v with
  | VNone => false
  | VBool b => b
  | VInt n => negb (n =? 0)
  | VFloat _ digits _ => negb (N.eqb digits 0)
  | VStr s => negb (String.eqb s EmptyString)
  | VList items => match items with [] => false | _ :: _ => true end
  | VDict entries => match entries with [] => false | _ :: _ => true end
  end.

(** [a or b]. *)
Definition py_or (a b : value) : value := if truthy a then a else b.

(** [d[k] = v]: an existing key keeps its position, a new key goes last. *)
Fixpoint dict_setitem (d : dict) (k : string) (v : value) : dict :=
  match d with
  | [] => [(k, v)]
  | (k', v') :: rest =>
      if String.eqb k' k then (k', v) :: rest
      else (k', v') :: dict_setitem rest k v
  end.

(** [d.update(other)] for a mapping [other]: its items are assigned in
    order. *)
Definition dict_update (d other : dict) : dict :=
  fold_left (fun acc kv => dict_setitem acc kv.1 kv.2) other d.

(** ** The serializer

    [jsonpickle.encode] and [jsonpickle.decode] belong to a library outside
    the repository; the storages only pass values through them.  They are
    an interface here; [decode] fails on text that is not a serialized
    value. *)
Class Serializer : Type := {
  encode : value -> string;
  decode : string -> option value
}.

(** ** The framework's helpers *)

(** [BaseStorage.resolve_state] of the framework on the annotated type
    [Optional[AnyStr]]: [None] stays [None] and a string is returned as it
    is. *)
Definition resolve_state (state : option string) : option string :=
  match state with
  | None => None
  | Some s => Some s
  end.

(** ** The database *)

(** A table has the primary key ["user"], the column ["chat"] and one text
    column (["state"], ["data"] or ["bucket"]): a finite map from the user
    to the rest of the row.  A database maps the names of the tables that
    exist to their contents. *)
Abbreviation table := (gmap Z (Z * string)).
Abbreviation database := (gmap string table).

(** A row as the driver returns it for [SELECT *]: user, chat, text. *)
Definition row : Type := Z * Z * string.

Definition aiogram_state : string := "aiogram_state".
Definition aiogram_data : string := "aiogram_data".
Definition aiogram_bucket : string := "aiogram_bucket".

(** The exceptions that can reach the caller: a statement on a table that
    does not exist, a [NULL] for a [NOT NULL] column, text that
    [jsonpickle.decode] rejects, and a method call on a value that lacks
    the method. *)
Inductive error : Type :=
  | OperationalError (missing_table : string)
  | IntegrityError
  | DecodeError
  | AttributeError.

Inductive result (A : Type) : Type :=
  | Ok (a : A)
  | Raise (e : error).
Arguments Ok {A} a.
Arguments Raise {A} e.

Module SQL.

(** [CREATE TABLE IF NOT EXISTS name(...)]. *)
Definition create_table_if_not_exists (name : string) (db : database)
  : result database :=
  match db !! name with
  | Some _ => Ok db
  | None => Ok (<[name := ∅]> db)
  end.

(** [DROP TABLE name]. *)
Definition drop_table (name : string) (db : database) : result database :=
  match db !! name with
  | Some _ => Ok (delete name db)
  | None => Raise (OperationalError name)
  end.

(** What [INSERT ... ON CONFLICT ("user") DO UPDATE SET <text column>]
    does to the rows: a new user gets the row [(user, chat, text)]; the
    row of a user who has one keeps its chat and gets the text. *)
Definition upsert (user chat : Z) (text : string) (t : table) : table :=
  match t !! user with
  | None => <[user := (chat, text)]> t
  | Some (chat0, _) => <[user := (chat0, text)]> t
  end.

(** [INSERT INTO name VALUES(user, chat, text)
     ON CONFLICT ("user") DO UPDATE SET <text column> = text]. *)
Definition insert_on_conflict_update
    (name : string) (user chat : Z) (text : string) (db : database)
  : result database :=
  match db !! name with
  | None => Raise (OperationalError name)
  | Some t => Ok (<[name := upsert user chat text t]> db)
  end.

(** The rows that satisfy [WHERE "chat"=chat AND "user"=user]. *)
Definition matching (chat user : Z) (t : table) : table :=
  filter (fun r : Z * (Z * string) => r.2.1 = chat ∧ r.1 = user) t.

(** The rows that a [DELETE ... WHERE "chat"=chat AND "user"=user]
    leaves. *)
Definition remaining (chat user : Z) (t : table) : table :=
  filter (fun r : Z * (Z * string) => ¬ (r.2.1 = chat ∧ r.1 = user)) t.

(** [DELETE FROM name WHERE "chat"=chat AND "user"=user]. *)
Definition delete_where (name : string) (chat user : Z) (db : database)
  : result database :=
  match db !! name with
  | None => Raise (OperationalError name)
  | Some t => Ok (<[name := remaining chat user t]> db)
  end.

(** [SELECT <text column> FROM name WHERE "chat"=chat AND "user"=user]:
    the selected column of every matching row. *)
Definition select_where (name : string) (chat user : Z) (db : database)
  : result (list string) :=
  match db !! name with
  | None => Raise (OperationalError name)
  | Some t =>
      Ok ((fun r : Z * (Z * string) => r.2.2) <$>
            map_to_list (matching chat user t))
  end.

(** [SELECT * FROM name]. *)
Definition select_all (name : string) (db : database) : result (list row) :=
  match db !! name with
  | None => Raise (OperationalError name)
  | Some t =>
      Ok ((fun r : Z * (Z * string) => (r.1, r.2.1, r.2.2)) <$>
            map_to_list t)
  end.

End SQL.

(** ** The storage object

    [_db] tells whether the connection has been opened ([self._db] holds a
    connection); [backend] is the database that the path or the host
    designates. *)
Record storage : Type := Storage {
  _db : bool;
  backend : database
}.

(** [__init__]: a storage on the database [db], not yet connected. *)
Definition init (db : database) : storage := {| _db := false; backend := db |}.

(** Coroutines of a storage: they read and change the storage, and return
    or raise.  What a coroutine did before it raised stays done. *)
Definition M (A : Type) : Type := storage -> result A * storage.

Definition ret {A} (a : A) : M A := fun st => (Ok a, st).

Definition bind {A B} (m : M A) (k : A -> M B) : M B :=
  fun st =>
    match m st with
    | (Ok a, st') => k a st'
    | (Raise e, st') => (Raise e, st')
    end.

Definition raise {A} (e : error) : M A := fun st => (Raise e, st).

Notation "'let*' x ':=' m 'in' k" := (bind m (fun x => k))
  (at level 10, x name, m at level 100, k at level 200,
   format "'[v' 'let*'  x  :=  m  'in'  '/' k ']'").

(** [await db.execute(statement)] for a statement without result rows. *)
Definition execute (statement : database -> result database) : M unit :=
  fun st =>
    match statement (backend st) with
    | Ok db' => (Ok tt, {| _db := _db st; backend := db' |})
    | Raise e => (Raise e, st)
    end.

(** A statement with result rows. *)
Definition query {A} (statement : database -> result A) : M A :=
  fun st => (statement (backend st), st).

(** Both [get_db] methods: the cached connection is returned when there is
    one; else the connection is opened and the three tables are created
    where they are missing. *)
Definition get_db : M unit :=
  fun st =>
    if _db st then (Ok tt, st)
    else
      (let* _ := execute (SQL.create_table_if_not_exists aiogram_state) in
       let* _ := execute (SQL.create_table_if_not_exists aiogram_data) in
       execute (SQL.create_table_if_not_exists aiogram_bucket))
        {| _db := true; backend := backend st |}.

(** [temp.update(data, **kwargs)] on a decoded value: only a dictionary
    has the method. *)
Definition update_method (temp : value) (data kwargs : dict) : M dict :=
  match temp with
  | VDict d => ret (dict_update (dict_update d data) kwargs)
  | _ => raise AttributeError
  end.

(** [jsonpickle.decode(text)]. *)
Definition jsonpickle_decode `{Serializer} (text : string) : M value :=
  match decode text with
  | Some v => ret v
  | None => raise DecodeError
  end.

(** ** SQLiteStorage *)

Module SQLiteStorage.
Section Methods.
Context `{Serializer}.

(** [await db.commit()]: every statement of the one connection is
    already visible to it. *)
Definition commit : M unit := ret tt.

(** [await cursor.fetchone()]: the first row, or [None]. *)
Definition fetchone {A} (rows : list A) : option A := head rows.

Definition wait_closed : M bool := ret true.

Definition set_state (chat user : Z) (state : option string) : M unit :=
  let* _ := get_db in
  match state with
  | Some _ =>
      match resolve_state state with
      | Some text =>
          let* _ := execute (SQL.insert_on_conflict_update
                               aiogram_state user chat text) in
          commit
      | None => raise IntegrityError
      end
  | None =>
      let* _ := execute (SQL.delete_where aiogram_state chat user) in
      commit
  end.

Definition get_state (chat user : Z) (default : option string)
  : M (option string) :=
  let* _ := get_db in
  let* rows := query (SQL.select_where aiogram_state chat user) in
  match fetchone rows with
  | Some text => ret (Some text)
  | None => ret (resolve_state default)
  end.

Definition set_data (chat user : Z) (data : value) : M unit :=
  let* _ := get_db in
  if truthy data then
    let* _ := execute (SQL.insert_on_conflict_update
                         aiogram_data user chat (encode data)) in
    commit
  else
    let* _ := execute (SQL.delete_where aiogram_data chat user) in
    commit.

Definition get_data (chat user : Z) (default : value) : M value :=
  let* _ := get_db in
  let* rows := query (SQL.select_where aiogram_data chat user) in
  match fetchone rows with
  | Some text => jsonpickle_decode text
  | None => ret (py_or default (VDict []))
  end.

Definition update_data (chat user : Z) (data : option dict) (kwargs : dict)
  : M unit :=
  let data := match data with None => [] | Some d => d end in
  let* temp_data := get_data chat user (VDict []) in
  let* temp_data := update_method temp_data data kwargs in
  set_data chat user (VDict temp_data).

Definition has_bucket : bool := true.

Definition get_bucket (chat user : Z) (default : value) : M value :=
  let* _ := get_db in
  let* rows := query (SQL.select_where aiogram_bucket chat user) in
  match fetchone rows with
  | Some text => jsonpickle_decode text
  | None => ret (py_or default (VDict []))
  end.

Definition set_bucket (chat user : Z) (bucket : value) : M unit :=
  let* _ := get_db in
  let* _ := execute (SQL.insert_on_conflict_update
                       aiogram_bucket user chat (encode bucket)) in
  commit.

Definition update_bucket (chat user : Z) (bucket : option dict)
    (kwargs : dict) : M unit :=
  let bucket := match bucket with None => [] | Some b => b end in
  let* temp_bucket := get_bucket chat user VNone in
  let* temp_bucket := update_method temp_bucket bucket kwargs in
  set_bucket chat user (VDict temp_bucket).

Definition reset_all (full : bool) : M unit :=
  let* _ := get_db in
  let* _ := execute (SQL.drop_table aiogram_state) in
  let* _ :=
    if full then
      let* _ := execute (SQL.drop_table aiogram_data) in
      execute (SQL.drop_table aiogram_bucket)
    else ret tt in
  commit.

(** [(int(item[1]), int(item[0]))] for the rows [(user, chat, state)]. *)
Definition get_states_list : M (list (Z * Z)) :=
  let* _ := get_db in
  let* items := query (SQL.select_all aiogram_state) in
  ret ((fun item : row => (item.1.2, item.1.1)) <$> items).

End Methods.
End SQLiteStorage.

(** ** PGStorage *)

Module PGStorage.
Section Methods.
Context `{Serializer}.

(** [await db.fetchval(query)]: the first column of the first row, or
    [None]. *)
Definition fetchval {A} (rows : list A) : option A := head rows.

(** The truth value of what [fetchval] returned: [None] and the empty
    string are false. *)
Definition truthy_text (result : option string) : bool :=
  match result with
  | None => false
  | Some text => negb (String.eqb text EmptyString)
  end.

Definition wait_closed : M bool := ret true.

Definition set_state (chat user : Z) (state : option string) : M unit :=
  let* _ := get_db in
  match state with
  | Some _ =>
      match resolve_state state with
      | Some text =>
          execute (SQL.insert_on_conflict_update
                     aiogram_state user chat text)
      | None => raise IntegrityError
      end
  | None => execute (SQL.delete_where aiogram_state chat user)
  end.

Definition get_state (chat user : Z) (default : option string)
  : M (option string) :=
  let* _ := get_db in
  let* rows := query (SQL.select_where aiogram_state chat user) in
  let result := fetchval rows in
  if truthy_text result then ret result else ret (resolve_state default).

Definition set_data (chat user : Z) (data : value) : M unit :=
  let* _ := get_db in
  if truthy data then
    execute (SQL.insert_on_conflict_update
               aiogram_data user chat (encode data))
  else execute (SQL.delete_where aiogram_data chat user).

Definition get_data (chat user : Z) (default : value) : M value :=
  let* _ := get_db in
  let* rows := query (SQL.select_where aiogram_data chat user) in
  match fetchval rows with
  | Some text =>
      if truthy_text (Some text) then jsonpickle_decode text
      else ret (py_or default (VDict []))
  | None => ret (py_or default (VDict []))
  end.

Definition update_data (chat user : Z) (data : option dict) (kwargs : dict)
  : M unit :=
  let data := match data with None => [] | Some d => d end in
  let* temp_data := get_data chat user (VDict []) in
  let* temp_data := update_method temp_data data kwargs in
  set_data chat user (VDict temp_data).

Definition has_bucket : bool := true.

Definition get_bucket (chat user : Z) (default : value) : M value :=
  let* _ := get_db in
  let* rows := query (SQL.select_where aiogram_bucket chat user) in
  match fetchval rows with
  | Some text =>
      if truthy_text (Some text) then jsonpickle_decode text
      else ret (py_or default (VDict []))
  | None => ret (py_or default (VDict []))
  end.

Definition set_bucket (chat user : Z) (bucket : value) : M unit :=
  let* _ := get_db in
  execute (SQL.insert_on_conflict_update
             aiogram_bucket user chat (encode bucket)).

Definition update_bucket (chat user : Z) (bucket : option dict)
    (kwargs : dict) : M unit :=
  let bucket := match bucket with None => [] | Some b => b end in
  let* temp_bucket := get_bucket chat user VNone in
  let* temp_bucket := update_method temp_bucket bucket kwargs in
  set_bucket chat user (VDict temp_bucket).

Definition reset_all (full : bool) : M unit :=
  let* _ := get_db in
  let* _ := execute (SQL.drop_table aiogram_state) in
  if full then
    let* _ := execute (SQL.drop_table aiogram_data) in
    execute (SQL.drop_table aiogram_bucket)
  else ret tt.

(** [(int(item['chat']), int(item['user']))] for the records with the
    columns user, chat, state. *)
Definition get_states_list : M (list (Z * Z)) :=
  let* _ := get_db in
  let* items := query (SQL.select_all aiogram_state) in
  ret ((fun item : row => (item.1.2, item.1.1)) <$> items).

End Methods.
End PGStorage.

(** ** A JSON serializer

    The serialization pair of the storages is the [jsonpickle] library,
    which is not part of the repository.  This module gives an instance of
    the [Serializer] interface after the spec's description of the pair: a
    text encoding of nested JSON-compatible structures. *)

Module Json.

Definition quote : ascii := "034"%char.
Definition backslash : ascii := "092"%char.

Definition is_special (c : ascii) : bool :=
  Ascii.eqb c quote || Ascii.eqb c backslash.

(** A quote or a backslash inside a string is preceded by a backslash. *)
Fixpoint escape (s : string) : string :=
  match s with
  | EmptyString => EmptyString
  | String c rest =>
      if is_special c then String backslash (String c (escape rest))
      else String c (escape rest)
  end.

Definition dump_string (s : string) : string :=
  String quote (escape s +:+ String quote EmptyString).

Definition dump_int (n : Z) : string :=
  DecimalString.NilZero.string_of_int (Z.to_int n).

(** A float is written with its exponent, the digits before it as an
    integer: the number that [json.dumps] writes, in one notation for
    all floats. *)
Definition dump_float (negative : bool) (digits : N) (exponent : Z)
  : string :=
  (if negative then "-" else EmptyString) +:+
  dump_int (Z.of_N digits) +:+ "e" +:+ dump_int exponent.

(** The items after the first, each behind its separator. *)
Fixpoint dump_tail (items : list string) : string :=
  match items with
  | [] => EmptyString
  | x :: rest => ", " +:+ x +:+ dump_tail rest
  end.

Definition dump_seq (items : list string) : string :=
  match items with
  | [] => EmptyString
  | x :: rest => x +:+ dump_tail rest
  end.

(** Modelled from the spec: [encode], the text of a value.  The
    [jsonpickle] library that the storages call is missing; the text is
    the one that [json.dumps] writes with its default separators. *)
Fixpoint dumps (v : value) : string :=
  match v with
  | VNone => "null"
  | VBool true => "true"
  | VBool false => "false"
  | VInt n => dump_int n
  | VFloat negative digits exponent => dump_float negative digits exponent
  | VStr s => dump_string s
  | VList items => "[" +:+ dump_seq (map dumps items) +:+ "]"
  | VDict entries =>
      "{" +:+
      dump_seq (map (fun kv : string * value =>
                       dump_string kv.1 +:+ ": " +:+ dumps kv.2) entries)
      +:+ "}"
  end.

(** The characters of a string literal up to its closing quote, and
    what follows the quote. *)
Fixpoint load_chars (s : string) : option (string * string) :=
  match s with
  | EmptyString => None
  | String c rest =>
      if Ascii.eqb c quote then Some (EmptyString, rest)
      else if Ascii.eqb c backslash then
        match rest with
        | EmptyString => None
        | String c' rest' =>
            '(str, r) ← load_chars rest'; Some (String c' str, r)
        end
      else '(str, r) ← load_chars rest; Some (String c str, r)
  end.

Definition load_string (s : string) : option (string * string) :=
  match s with
  | String c rest => if Ascii.eqb c quote then load_chars rest else None
  | EmptyString => None
  end.

Definition is_int_char (c : ascii) : bool :=
  Ascii.eqb c "-"%char ||
  (Nat.leb 48 (nat_of_ascii c) && Nat.leb (nat_of_ascii c) 57).

(** The longest prefix made of digits and minus signs, and the rest. *)
Fixpoint span_int (s : string) : string * string :=
  match s with
  | EmptyString => (EmptyString, EmptyString)
  | String c rest =>
      if is_int_char c then
        let '(digits, r) := span_int rest in (String c digits, r)
      else (EmptyString, s)
  end.

Definition load_int (s : string) : option (Z * string) :=
  let '(digits, r) := span_int s in
  d ← DecimalString.NilZero.int_of_string digits; Some (Z.of_int d, r).

(** What follows the given prefix. *)
Fixpoint skip (prefix s : string) : option string :=
  match prefix with
  | EmptyString => Some s
  | String c prefix' =>
      match s with
      | EmptyString => None
      | String c' s' => if Ascii.eqb c c' then skip prefix' s' else None
      end
  end.

Fixpoint load_value (fuel : nat) (s : string) : option (value * string) :=
  match fuel with
  | O => None
  | S fuel =>
      match s with
      | EmptyString => None
      | String c rest =>
          if Ascii.eqb c "n"%char then
            r ← skip "ull" rest; Some (VNone, r)
          else if Ascii.eqb c "t"%char then
            r ← skip "rue" rest; Some (VBool true, r)
          else if Ascii.eqb c "f"%char then
            r ← skip "alse" rest; Some (VBool false, r)
          else if Ascii.eqb c quote then
            '(str, r) ← load_chars rest; Some (VStr str, r)
          else if Ascii.eqb c "["%char then
            match rest with
            | EmptyString => None
            | String c' r =>
                if Ascii.eqb c' "]"%char then Some (VList [], r)
                else
                  '(x, r1) ← load_value fuel rest;
                  '(xs, r2) ← load_items fuel r1;
                  Some (VList (x :: xs), r2)
            end
          else if Ascii.eqb c "{"%char then
            match rest with
            | EmptyString => None
            | String c' r =>
                if Ascii.eqb c' "}"%char then Some (VDict [], r)
                else
                  '(k, r1) ← load_string rest;
                  r2 ← skip ": " r1;
                  '(x, r3) ← load_value fuel r2;
                  '(xs, r4) ← load_members fuel r3;
                  Some (VDict ((k, x) :: xs), r4)
            end
          else
            '(n, r) ← load_int s;
            match r with
            | EmptyString => Some (VInt n, r)
            | String c' r' =>
                if Ascii.eqb c' "e"%char then
                  '(k, r'') ← load_int r';
                  Some (VFloat (Ascii.eqb c "-"%char) (Z.abs_N n) k, r'')
                else Some (VInt n, r)
            end
      end
  end
with load_items (fuel : nat) (s : string)
  : option (list value * string) :=
  match fuel with
  | O => None
  | S fuel =>
      match s with
      | EmptyString => None
      | String c r =>
          if Ascii.eqb c "]"%char then Some ([], r)
          else
            r1 ← skip ", " s;
            '(x, r2) ← load_value fuel r1;
            '(xs, r3) ← load_items fuel r2;
            Some (x :: xs, r3)
      end
  end
with load_members (fuel : nat) (s : string)
  : option (list (string * value) * string) :=
  match fuel with
  | O => None
  | S fuel =>
      match s with
      | EmptyString => None
      | String c r =>
          if Ascii.eqb c "}"%char then Some ([], r)
          else
            r1 ← skip ", " s;
            '(k, r2) ← load_string r1;
            r3 ← skip ": " r2;
            '(x, r4) ← load_value fuel r3;
            '(xs, r5) ← load_members fuel r4;
            Some ((k, x) :: xs, r5)
      end
  end.

(** Modelled from the spec: [decode], the value of a text.  The
    [jsonpickle] library that the storages call is missing; the whole
    text must be one value. *)
Definition loads (s : string) : option value :=
  '(v, r) ← load_value (S (String.length s)) s;
  if String.eqb r EmptyString then Some v else None.

(** Modelled from the spec: the serialization interface [encode] and
    [decode] of the storages, in place of the missing [jsonpickle]. *)
#[export] Instance serializer : Serializer :=
  {| encode := dumps; decode := loads |}.

(** A bound on the fuel that reading a value back takes. *)
Fixpoint weight (v : value) : nat :=
  match v with
  | VList items => S (list_sum (map (fun x => S (weight x)) items))
  | VDict entries =>
      S (list_sum (map (fun kv : string * value => S (weight kv.2)) entries))
  | _ => 1%nat
  end.

(** A text after which the digits of a number end: no digit and no minus
    sign follows. *)
Definition ends_digits (rest : string) : Prop :=
  match rest with
  | EmptyString => True
  | String c _ => is_int_char c = false
  end.

(** A text after which a number ends: no digit, no minus sign and no
    exponent follows. *)
Definition ends_int (rest : string) : Prop :=
  match rest with
  | EmptyString => True
  | String c _ => is_int_char c = false /\ Ascii.eqb c "e"%char = false
  end.

(** The characters that a serialized value can start with. *)
Definition starts_value (c : ascii) : bool :=
  is_int_char c || Ascii.eqb c "n"%char || Ascii.eqb c "t"%char ||
  Ascii.eqb c "f"%char || Ascii.eqb c quote || Ascii.eqb c "["%char ||
  Ascii.eqb c "{"%char.

(** What the round trip says of one value, for every fuel that covers its
    weight and every text that may follow it. *)
Definition reads_back (v : value) : Prop :=
  forall (fuel : nat) (rest : string),
    (weight v <= fuel)%nat -> ends_int rest ->
    load_value fuel (dumps v +:+ rest) = Some (v, rest).

End Json.

(** ** The database that a method works on *)

(** [CREATE TABLE IF NOT EXISTS] as a function on databases. *)
Definition create_missing (name : string) (db : database) : database :=
  match db !! name with
  | Some _ => db
  | None => <[name := ∅]> db
  end.

(** The database as the methods see it once [get_db] has returned: the
    backend itself under an open connection, and else the backend with
    the missing tables created. *)
Definition opened (st : storage) : database :=
  if _db st then backend st
  else create_missing aiogram_bucket
         (create_missing aiogram_data
            (create_missing aiogram_state (backend st))).

(** The storage after a method has replaced the database by [db]. *)
Definition connected (db : database) : storage :=
  {| _db := true; backend := db |}.

(** The text that the row of [(chat, user)] holds, if there is such a
    row. *)
Definition stored (chat user : Z) (t : table) : option string :=
  match t !! user with
  | Some (chat0, text) => if decide (chat0 = chat) then Some text else None
  | None => None
  end.

(** ** Sample databases *)

(** User 100 talks in chat 1: a state, a data mapping and no bucket. *)
Definition sample_state : table := {[100 := (1, "menu"%string)]}.

Definition sample_mapping : dict :=
  [("a"%string, VInt 1); ("b"%string, VInt 2)].

Definition sample_data : table :=
  {[100 := (1, Json.dumps (VDict sample_mapping))]}.

Definition sample_db : database :=
  {[aiogram_state := sample_state;
    aiogram_data := sample_data;
    aiogram_bucket := ∅]}.

(** ** Rows, and what a write may change *)

(** [d.get(k)]. *)
Fixpoint dict_get (d : dict) (k : string) : option value :=
  match d with
  | [] => None
  | (k', v') :: rest => if String.eqb k' k then Some v' else dict_get rest k
  end.

(** The row of a user in a table of a database: its chat and its text. *)
Definition row_at (db : database) (name : string) (user : Z)
  : option (Z * string) :=
  db !! name ≫= fun t : table => t !! user.

(** From [db] to [db'] the same tables exist, and no row differs but the
    row of [user] in the table [name]. *)
Definition touches_only (name : string) (user : Z) (db db' : database)
  : Prop :=
  (forall n, is_Some (db' !! n) <-> is_Some (db !! n)) /\
  (forall n u, n ≠ name \/ u ≠ user -> row_at db' n u = row_at db n u).

(** From [db] to [db'] a row is deleted or keeps its chat. *)
Definition keeps_chat (db db' : database) : Prop :=
  forall n u c text,
    row_at db n u = Some (c, text) ->
    row_at db' n u = None \/ exists text', row_at db' n u = Some (c, text').

(** ** Sessions of calls *)

(** The calls of the storage interface, and what they return. *)
Inductive call : Type :=
  | SetState (chat user : Z) (state : option string)
  | GetState (chat user : Z) (default : option string)
  | SetData (chat user : Z) (data : value)
  | GetData (chat user : Z) (default : value)
  | UpdateData (chat user : Z) (data : option dict) (kwargs : dict)
  | SetBucket (chat user : Z) (bucket : value)
  | GetBucket (chat user : Z) (default : value)
  | UpdateBucket (chat user : Z) (bucket : option dict) (kwargs : dict)
  | ResetAll (full : bool)
  | GetStatesList.

Inductive answer : Type :=
  | Done
  | State (state : option string)
  | Mapping (v : value)
  | States (pairs : list (Z * Z)).

(** The method [m], its return value wrapped by [f]. *)
Definition answering {A} (f : A -> answer) (m : M A) : M answer :=
  let* a := m in ret (f a).

Definition sqlite_call `{Serializer} (c : call) : M answer :=
  match c with
  | SetState chat user state =>
      answering (fun _ => Done) (SQLiteStorage.set_state chat user state)
  | GetState chat user default =>
      answering State (SQLiteStorage.get_state chat user default)
  | SetData chat user data =>
      answering (fun _ => Done) (SQLiteStorage.set_data chat user data)
  | GetData chat user default =>
      answering Mapping (SQLiteStorage.get_data chat user default)
  | UpdateData chat user data kwargs =>
      answering (fun _ => Done)
        (SQLiteStorage.update_data chat user data kwargs)
  | SetBucket chat user bucket =>
      answering (fun _ => Done) (SQLiteStorage.set_bucket chat user bucket)
  | GetBucket chat user default =>
      answering Mapping (SQLiteStorage.get_bucket chat user default)
  | UpdateBucket chat user bucket kwargs =>
      answering (fun _ => Done)
        (SQLiteStorage.update_bucket chat user bucket kwargs)
  | ResetAll full =>
      answering (fun _ => Done) (SQLiteStorage.reset_all full)
  | GetStatesList => answering States SQLiteStorage.get_states_list
  end.

Definition pg_call `{Serializer} (c : call) : M answer :=
  match c with
  | SetState chat user state =>
      answering (fun _ => Done) (PGStorage.set_state chat user state)
  | GetState chat user default =>
      answering State (PGStorage.get_state chat user default)
  | SetData chat user data =>
      answering (fun _ => Done) (PGStorage.set_data chat user data)
  | GetData chat user default =>
      answering Mapping (PGStorage.get_data chat user default)
  | UpdateData chat user data kwargs =>
      answering (fun _ => Done) (PGStorage.update_data chat user data kwargs)
  | SetBucket chat user bucket =>
      answering (fun _ => Done) (PGStorage.set_bucket chat user bucket)
  | GetBucket chat user default =>
      answering Mapping (PGStorage.get_bucket chat user default)
  | UpdateBucket chat user bucket kwargs =>
      answering (fun _ => Done)
        (PGStorage.update_bucket chat user bucket kwargs)
  | ResetAll full => answering (fun _ => Done) (PGStorage.reset_all full)
  | GetStatesList => answering States PGStorage.get_states_list
  end.

(** A caller that makes the calls in turn on one storage object and goes
    on after an exception: what each call returned or raised, and the
    storage at the end. *)
Fixpoint session (run : call -> M answer) (calls : list call) (st : storage)
  : list (result answer) * storage :=
  match calls with
  | [] => ([], st)
  | c :: rest =>
      let '(r, st') := run c st in
      let '(rs, st'') := session run rest st' in
      (r :: rs, st'')
  end.

(** No row of the database holds an empty text. *)
Definition nonempty_texts (db : database) : Prop :=
  forall name u c text, row_at db name u = Some (c, text) ->
                        text ≠ EmptyString.

(** The call sets the empty string as a state. *)
Definition sets_empty_state (c : call) : Prop :=
  match c with
  | SetState _ _ (Some s) => s = EmptyString
  | _ => False
  end.

(** A database in which user 100 holds a text that is a list, as data
    and as bucket. *)
Definition list_text_table : table := {[100 := (1, "[1]"%string)]}.

Definition list_text_db : database :=
  {[aiogram_state := ∅;
    aiogram_data := list_text_table;
    aiogram_bucket := list_text_table]}.

(** ** Inputs that both drivers take *)

(** The integers that a [BIGINT] column holds; the drivers refuse a key
    outside. *)
Definition bigint (n : Z) : Prop := - 2 ^ 63 <= n < 2 ^ 63.

(** The string holds the character NUL, which PostgreSQL refuses in a
    text. *)
Fixpoint contains_nul (s : string) : bool :=
  match s with
  | EmptyString => false
  | String c rest => Ascii.eqb c "000"%char || contains_nul rest
  end.

(** From [db] to [db'] no table is dropped, and no row differs but the
    row of [user] in the table [name]. *)
Definition keeps_other_rows (name : string) (user : Z) (db db' : database)
  : Prop :=
  (forall n, is_Some (db !! n) -> is_Some (db' !! n)) /\
  (forall n u, n ≠ name \/ u ≠ user -> row_at db' n u = row_at db n u).

(** * Properties *)

(** ** The JSON serializer reads back what it wrote *)

Section JsonRoundTrip.
Import Json.

Lemma append_cons (c : ascii) (a b : string) :
  String c a +:+ b = String c (a +:+ b).
Proof. done. Qed.

Lemma append_empty (b : string) : EmptyString +:+ b = b.
Proof. done. Qed.

Lemma append_assoc (a b c : string) : (a +:+ b) +:+ c = a +:+ (b +:+ c).
Proof.
  induction a as [|x a IH]; [done|]. by rewrite !append_cons, IH.
Qed.

Lemma skip_append (prefix rest : string) :
  skip prefix (prefix +:+ rest) = Some rest.
Proof.
  induction prefix as [|c prefix IH]; [done|].
  rewrite append_cons. simpl. by rewrite Ascii.eqb_refl.
Qed.

Lemma load_chars_escape (s rest : string) :
  load_chars (escape s +:+ String quote rest) = Some (s, rest).
Proof.
  induction s as [|c s IH]; [done|].
  simpl. unfold is_special.
  destruct (Ascii.eqb c quote) eqn:Hq; simpl.
  - apply Ascii.eqb_eq in Hq as ->. by rewrite IH.
  - destruct (Ascii.eqb c backslash) eqn:Hb; simpl.
    + apply Ascii.eqb_eq in Hb as ->. by rewrite IH.
    + by rewrite Hq, Hb, IH.
Qed.

Lemma load_string_dump (s rest : string) :
  load_string (dump_string s +:+ rest) = Some (s, rest).
Proof.
  unfold dump_string. rewrite append_cons, append_assoc, append_cons. simpl.
  by rewrite ?append_empty, load_chars_escape.
Qed.

(** Numbers *)

Lemma uint_chars (d : Decimal.uint) (rest : string) :
  ends_digits rest ->
  span_int (DecimalString.NilEmpty.string_of_uint d +:+ rest) =
    (DecimalString.NilEmpty.string_of_uint d, rest).
Proof.
  intros Hrest. induction d; simpl; rewrite ?append_cons; simpl;
    rewrite ?IHd; try done.
  rewrite append_empty. destruct rest as [|c rest]; [done|].
  simpl in *. by rewrite Hrest.
Qed.

Lemma span_int_dump (n : Z) (rest : string) :
  ends_digits rest -> span_int (dump_int n +:+ rest) = (dump_int n, rest).
Proof.
  intros Hrest.
  assert (Hzero : span_int ("0" +:+ rest) = ("0", rest)).
  { rewrite append_cons, append_empty. simpl.
    destruct rest as [|c rest]; [done|]. simpl in *. by rewrite Hrest. }
  unfold dump_int, DecimalString.NilZero.string_of_int.
  destruct (Z.to_int n) as [d|d].
  - unfold DecimalString.NilZero.string_of_uint.
    destruct d; try apply (uint_chars _ _ Hrest). apply Hzero.
  - rewrite append_cons. simpl.
    unfold DecimalString.NilZero.string_of_uint.
    destruct d; try (by rewrite (uint_chars _ _ Hrest)).
    by rewrite Hzero.
Qed.

Lemma load_int_dump (n : Z) (rest : string) :
  ends_digits rest -> load_int (dump_int n +:+ rest) = Some (n, rest).
Proof.
  intros Hrest. unfold load_int. rewrite (span_int_dump n rest Hrest).
  unfold dump_int. rewrite DecimalString.NilZero.isi.
  - simpl. by rewrite DecimalZ.of_to.
  - destruct n; simpl; try done.
    intros [= Hnil]. by apply DecimalPos.Unsigned.to_uint_nonnil in Hnil.
  - destruct n; simpl; try done.
    intros [= Hnil]. by apply DecimalPos.Unsigned.to_uint_nonnil in Hnil.
Qed.


(** The first character of a text tells what kind of value it is. *)

Lemma int_char_dispatch (c : ascii) :
  is_int_char c = true ->
  Ascii.eqb c "n"%char = false /\ Ascii.eqb c "t"%char = false /\
  Ascii.eqb c "f"%char = false /\ Ascii.eqb c quote = false /\
  Ascii.eqb c "["%char = false /\ Ascii.eqb c "{"%char = false.
Proof.
  destruct c as [[] [] [] [] [] [] [] []]; vm_compute; intros Hc;
    by repeat split.
Qed.

Lemma starts_value_not_closing (c : ascii) :
  starts_value c = true ->
  Ascii.eqb c "]"%char = false /\ Ascii.eqb c "}"%char = false.
Proof.
  destruct c as [[] [] [] [] [] [] [] []]; vm_compute; intros Hc;
    by repeat split.
Qed.

Lemma uint_head (d : Decimal.uint) :
  d ≠ Decimal.Nil ->
  exists c s, DecimalString.NilEmpty.string_of_uint d = String c s /\
              is_int_char c = true.
Proof. destruct d; intros Hd; try done; simpl; eauto. Qed.

Lemma dump_int_head (n : Z) :
  exists c s, dump_int n = String c s /\ is_int_char c = true.
Proof.
  unfold dump_int, DecimalString.NilZero.string_of_int.
  destruct (Z.to_int n) as [d|d]; [|by eauto].
  unfold DecimalString.NilZero.string_of_uint.
  destruct d; simpl; eauto.
Qed.

(** The digits of a float start with a digit. *)
Lemma dump_digits_head (digits : N) :
  exists c s, dump_int (Z.of_N digits) = String c s /\
              is_int_char c = true /\ Ascii.eqb c "-" = false.
Proof.
  unfold dump_int, DecimalString.NilZero.string_of_int.
  destruct digits as [|p]; simpl; [by eauto|].
  unfold DecimalString.NilZero.string_of_uint.
  destruct (Pos.to_uint p); simpl; by eauto.
Qed.

Lemma dump_float_head (negative : bool) (digits : N) (exponent : Z) :
  exists c s, dump_float negative digits exponent = String c s /\
              is_int_char c = true /\ Ascii.eqb c "-" = negative.
Proof.
  unfold dump_float. destruct negative.
  - rewrite append_cons. eauto.
  - rewrite append_empty.
    destruct (dump_digits_head digits) as (c & s & -> & Hc & Hminus).
    rewrite append_cons. eauto.
Qed.

Lemma load_int_signed (negative : bool) (digits : N) (rest : string) :
  ends_digits rest ->
  load_int ((if negative then "-" else EmptyString) +:+
            dump_int (Z.of_N digits) +:+ rest) =
    Some (if negative then - Z.of_N digits else Z.of_N digits, rest).
Proof.
  intros Hrest. destruct negative.
  - destruct digits as [|p].
    + rewrite append_cons, append_empty.
      change (dump_int (Z.of_N 0)) with "0"%string.
      rewrite append_cons, append_empty.
      unfold load_int. simpl.
      destruct rest as [|c rest]; [done|]. simpl in *. by rewrite Hrest.
    + rewrite append_cons, append_empty.
      change (String "-" (dump_int (Z.of_N (N.pos p)) +:+ rest))
        with (dump_int (Z.neg p) +:+ rest).
      by rewrite load_int_dump.
  - rewrite append_empty. by apply load_int_dump.
Qed.

Lemma dumps_head (v : value) :
  exists c s, dumps v = String c s /\ starts_value c = true.
Proof.
  destruct v as [ |[]|n|neg m e|s|items|entries]; simpl; try by eauto.
  - destruct (dump_int_head n) as (c & s & Hn & Hc).
    exists c, s. split; [done|]. unfold starts_value. by rewrite Hc.
  - destruct (dump_float_head neg m e) as (c & s & Hn & Hc & _).
    exists c, s. split; [done|]. unfold starts_value. by rewrite Hc.
Qed.


Lemma value_nested_ind (P : value -> Prop) :
  P VNone ->
  (forall b, P (VBool b)) ->
  (forall n, P (VInt n)) ->
  (forall negative mantissa exponent, P (VFloat negative mantissa exponent)) ->
  (forall s, P (VStr s)) ->
  (forall items, Forall P items -> P (VList items)) ->
  (forall entries,
      Forall (fun kv : string * value => P kv.2) entries ->
      P (VDict entries)) ->
  forall v, P v.
Proof.
  intros HNone HBool HInt HFloat HStr HList HDict.
  fix IH 1. intros [ |b|n|neg m e|s|items|entries].
  - apply HNone.
  - apply HBool.
  - apply HInt.
  - apply HFloat.
  - apply HStr.
  - apply HList. revert items. fix IHitems 1. intros [|x items].
    + constructor.
    + constructor; [apply IH|apply IHitems].
  - apply HDict. revert entries. fix IHentries 1. intros [|[k x] entries].
    + constructor.
    + constructor; [apply IH|apply IHentries].
Qed.

Lemma ends_int_tail (items : list string) (c : ascii) (rest : string) :
  is_int_char c = false ->
  Ascii.eqb c "e" = false ->
  ends_int (dump_tail items +:+ String c rest).
Proof. intros Hc He. by destruct items. Qed.

Lemma ends_int_digits (rest : string) : ends_int rest -> ends_digits rest.
Proof. destruct rest as [|c rest]; [done|]. by intros [Hc _]. Qed.

Lemma load_items_dump (items : list value) :
  Forall reads_back items ->
  forall (fuel : nat) (rest : string),
    (S (list_sum (map (fun x => S (weight x)) items)) <= fuel)%nat ->
    load_items fuel (dump_tail (map dumps items) +:+ String "]" rest) =
      Some (items, rest).
Proof.
  induction 1 as [|y ys Hy _ IH]; intros fuel rest Hfuel;
    (destruct fuel as [|fuel]; [lia|]); [done|].
  simpl in Hfuel. cbn [map dump_tail].
  rewrite !append_assoc, !append_cons, append_empty.
  cbn [load_items]. change (Ascii.eqb "," "]") with false. cbv iota.
  cbn [skip]. rewrite !Ascii.eqb_refl. cbn [mbind option_bind].
  rewrite Hy; [|lia|by apply ends_int_tail]. cbn [mbind option_bind].
  rewrite IH by lia. done.
Qed.


Lemma load_members_dump (entries : list (string * value)) :
  Forall (fun kv : string * value => reads_back kv.2) entries ->
  forall (fuel : nat) (rest : string),
    (S (list_sum (map (fun kv : string * value => S (weight kv.2)) entries))
     <= fuel)%nat ->
    load_members fuel
      (dump_tail (map (fun kv : string * value =>
                         dump_string kv.1 +:+ ": " +:+ dumps kv.2) entries)
       +:+ String "}" rest) =
      Some (entries, rest).
Proof.
  induction 1 as [|[k y] ys Hy _ IH]; intros fuel rest Hfuel;
    (destruct fuel as [|fuel]; [lia|]); [done|].
  simpl in Hfuel, Hy. cbn [map dump_tail fst snd].
  rewrite !append_assoc, !append_cons, append_empty.
  cbn [load_members]. change (Ascii.eqb "," "}") with false. cbv iota.
  cbn [skip]. rewrite !Ascii.eqb_refl. cbn [mbind option_bind].
  rewrite load_string_dump. cbn [mbind option_bind].
  rewrite ?append_cons, ?append_empty. cbn [skip].
  rewrite ?Ascii.eqb_refl, ?append_empty. cbn [mbind option_bind].
  rewrite Hy; [|lia|by apply ends_int_tail]. cbn [mbind option_bind].
  rewrite IH by lia. done.
Qed.

Lemma load_value_dumps (v : value) : reads_back v.
Proof.
  induction v as [ |b|n|neg m e|s|items IH|entries IH]
    using value_nested_ind;
    intros fuel rest Hfuel Hrest;
    (destruct fuel as [|fuel]; [simpl in *; lia|]).
  - done.
  - by destruct b.
  - destruct (dump_int_head n) as (c & s & Hn & Hc).
    pose proof (load_int_dump n rest (ends_int_digits rest Hrest)) as Hload.
    cbn [dumps] in *. rewrite Hn, append_cons in *.
    destruct (int_char_dispatch c Hc) as (H1 & H2 & H3 & H4 & H5 & H6).
    cbn [load_value]. rewrite H1, H2, H3, H4, H5, H6, Hload.
    cbn [mbind option_bind].
    destruct rest as [|c' rest]; [done|]. destruct Hrest as [_ He].
    by rewrite He.
  - destruct (dump_float_head neg m e) as (c & s & Hn & Hc & Hminus).
    assert (Hload :
      load_int (dump_float neg m e +:+ rest) =
        Some (if neg then - Z.of_N m else Z.of_N m,
              String "e" (dump_int e +:+ rest))).
    { unfold dump_float. rewrite !append_assoc, append_cons, append_empty.
      by apply load_int_signed. }
    pose proof (load_int_dump e rest (ends_int_digits rest Hrest)) as Hexp.
    cbn [dumps] in *. rewrite Hn, append_cons in *.
    destruct (int_char_dispatch c Hc) as (H1 & H2 & H3 & H4 & H5 & H6).
    cbn [load_value]. rewrite H1, H2, H3, H4, H5, H6, Hload.
    cbn [mbind option_bind]. rewrite Ascii.eqb_refl, Hexp.
    cbn [mbind option_bind]. rewrite Hminus.
    destruct neg; by rewrite ?Zabs2N.inj_opp, Zabs2N.id.
  - cbn [dumps]. unfold dump_string.
    rewrite append_cons, append_assoc, append_cons, append_empty.
    cbn [load_value]. change (Ascii.eqb quote "n") with false.
    change (Ascii.eqb quote "t") with false.
    change (Ascii.eqb quote "f") with false. rewrite Ascii.eqb_refl.
    cbv iota. by rewrite load_chars_escape.
  - destruct IH as [|x xs Hx Hxs]; [done|].
    simpl in Hfuel. cbn [dumps map dump_seq].
    rewrite !append_assoc, !append_cons, !append_empty.
    assert (Hload :
      load_value fuel
        (dumps x +:+ dump_tail (map dumps xs) +:+ String "]" rest) =
        Some (x, dump_tail (map dumps xs) +:+ String "]" rest)).
    { apply Hx; [lia|by apply ends_int_tail]. }
    destruct (dumps_head x) as (c & s & Hhead & Hc).
    destruct (starts_value_not_closing c Hc) as [Hclose _].
    rewrite Hhead, append_cons in *.
    cbn [load_value] in *. change (Ascii.eqb "[" "n") with false.
    change (Ascii.eqb "[" "t") with false.
    change (Ascii.eqb "[" "f") with false.
    change (Ascii.eqb "[" quote) with false. rewrite Ascii.eqb_refl.
    cbv iota. rewrite Hclose, Hload. cbn [mbind option_bind].
    rewrite load_items_dump; [done|done|lia].
  - destruct IH as [|[k x] xs Hx Hxs]; [done|].
    simpl in Hfuel, Hx. cbn [dumps map dump_seq fst snd].
    rewrite !append_assoc, !append_cons, !append_empty.
    match goal with
    | |- load_value _ (String _ (dump_string k +:+ ?R)) = _ =>
        pose proof (load_string_dump k R) as Hkey
    end.
    unfold dump_string in *. rewrite append_cons in *.
    cbn [load_value]. change (Ascii.eqb "{" "n") with false.
    change (Ascii.eqb "{" "t") with false.
    change (Ascii.eqb "{" "f") with false.
    change (Ascii.eqb "{" quote) with false.
    change (Ascii.eqb "{" "[") with false. rewrite Ascii.eqb_refl.
    cbv iota. change (Ascii.eqb quote "}") with false. cbv iota.
    rewrite Hkey. cbn [mbind option_bind skip]. rewrite !Ascii.eqb_refl.
    cbn [mbind option_bind].
    rewrite Hx; [|lia|by apply ends_int_tail]. cbn [mbind option_bind].
    rewrite load_members_dump; [done|done|lia].
Qed.

(** The length of a text covers the fuel that reading it takes. *)

Lemma length_append (a b : string) :
  String.length (a +:+ b) = (String.length a + String.length b)%nat.
Proof.
  induction a as [|c a IH]; [done|]. rewrite append_cons. simpl. by rewrite IH.
Qed.

Lemma append_empty_r (a : string) : a +:+ EmptyString = a.
Proof.
  induction a as [|c a IH]; [done|]. by rewrite append_cons, IH.
Qed.

Lemma weight_tail_length {A} (w : A -> nat) (d : A -> string) (l : list A) :
  Forall (fun x => (w x <= String.length (d x))%nat) l ->
  (list_sum (map (fun x => S (w x)) l)
   <= String.length (dump_tail (map d l)))%nat.
Proof.
  induction 1 as [|x l Hx _ IH]; [done|].
  cbn [map dump_tail]. rewrite !length_append. simpl. lia.
Qed.

Lemma weight_seq_length {A} (w : A -> nat) (d : A -> string) (l : list A) :
  Forall (fun x => (w x <= String.length (d x))%nat) l ->
  (list_sum (map (fun x => S (w x)) l)
   <= S (String.length (dump_seq (map d l))))%nat.
Proof.
  intros Hl. destruct Hl as [|x l Hx Hl]; [simpl; lia|].
  cbn [map dump_seq]. rewrite length_append.
  pose proof (weight_tail_length w d l Hl). simpl. lia.
Qed.

Lemma weight_length (v : value) : (weight v <= String.length (dumps v))%nat.
Proof.
  induction v as [ |b|n|neg m e|s|items IH|entries IH]
    using value_nested_ind.
  - simpl. lia.
  - destruct b; simpl; lia.
  - destruct (dump_int_head n) as (c & s & Hn & _).
    cbn [dumps weight]. rewrite Hn. simpl. lia.
  - destruct (dump_float_head neg m e) as (c & s & Hn & _).
    cbn [dumps weight]. rewrite Hn. simpl. lia.
  - simpl. lia.
  - cbn [dumps weight]. rewrite !length_append.
    pose proof (weight_seq_length weight dumps items IH). simpl. lia.
  - cbn [dumps weight]. rewrite !length_append.
    assert (Hlen :
      (list_sum (map (fun kv : string * value => S (weight kv.2)) entries)
       <= S (String.length
               (dump_seq
                  (map (fun kv : string * value =>
                          dump_string kv.1 +:+ ": " +:+ dumps kv.2)
                       entries))))%nat).
    { apply (weight_seq_length (fun kv : string * value => weight kv.2)).
      eapply Forall_impl; [exact IH|].
      intros [k x] Hx. simpl in *. rewrite !length_append. lia. }
    simpl. lia.
Qed.

(** The serializer returns every value unchanged. *)
Lemma loads_dumps (v : value) : Json.loads (Json.dumps v) = Some v.
Proof.
  unfold loads.
  rewrite <- (append_empty_r (dumps v)) at 2.
  rewrite load_value_dumps; [|pose proof (weight_length v); lia|done].
  done.
Qed.

End JsonRoundTrip.

(** ** The connection *)

Lemma execute_create (name : string) (st : storage) :
  execute (SQL.create_table_if_not_exists name) st =
    (Ok tt, {| _db := _db st; backend := create_missing name (backend st) |}).
Proof.
  unfold execute, SQL.create_table_if_not_exists, create_missing.
  by destruct (backend st !! name).
Qed.

Lemma get_db_run (st : storage) : get_db st = (Ok tt, connected (opened st)).
Proof.
  destruct st as [[] db]; unfold get_db, opened, connected; simpl; [done|].
  unfold bind. by rewrite !execute_create.
Qed.

Lemma bind_get_db {A} (k : unit -> M A) (st : storage) :
  bind get_db k st = k tt (connected (opened st)).
Proof. unfold bind. by rewrite get_db_run. Qed.

Lemma opened_connected (db : database) : opened (connected db) = db.
Proof. done. Qed.

Lemma table_names_distinct :
  aiogram_state ≠ aiogram_data ∧ aiogram_state ≠ aiogram_bucket ∧
  aiogram_data ≠ aiogram_bucket.
Proof. by repeat split. Qed.

Lemma create_missing_lookup (name n : string) (db : database) :
  create_missing name db !! n =
    if decide (n = name) then Some (default ∅ (db !! name)) else db !! n.
Proof.
  unfold create_missing. destruct (decide (n = name)) as [->|Hne].
  - destruct (db !! name) eqn:Hdb; [done|]. by rewrite lookup_insert_eq.
  - destruct (db !! name); [done|]. by rewrite lookup_insert_ne.
Qed.

(** Opening a connection keeps the tables that exist and creates the
    missing ones empty. *)
Lemma opened_closed_lookup (db : database) (name : string) :
  name ∈ [aiogram_state; aiogram_data; aiogram_bucket] ->
  opened (init db) !! name =
    Some (default ∅ (db !! name)).
Proof.
  intros Hname. unfold opened; simpl. rewrite !create_missing_lookup.
  destruct table_names_distinct as (Hsd & Hsb & Hdb).
  set_unfold. destruct Hname as [->|[->|[->|[]]]].
  - by rewrite decide_False, decide_False, decide_True.
  - by rewrite decide_False, decide_True.
  - by rewrite decide_True.
Qed.

(** Opening a connection adds no row and drops no table. *)
Lemma row_at_opened (st : storage) (name : string) (u : Z) :
  row_at (opened st) name u = row_at (backend st) name u.
Proof.
  unfold opened. destruct (_db st); [done|].
  assert (Hone : forall (n : string) (db : database),
             row_at (create_missing n db) name u = row_at db name u).
  { intros n db. unfold row_at. rewrite create_missing_lookup.
    destruct (decide (name = n)) as [->|Hne]; [|done].
    by destruct (db !! n). }
  by rewrite !Hone.
Qed.

Lemma opened_keeps_tables (st : storage) (name : string) :
  is_Some (backend st !! name) -> is_Some (opened st !! name).
Proof.
  unfold opened. destruct (_db st); [done|].
  assert (Hone : forall (n : string) (db : database),
             is_Some (db !! name) -> is_Some (create_missing n db !! name)).
  { intros n db Hname. rewrite create_missing_lookup.
    destruct (decide (name = n)) as [->|Hne]; [|done]. eauto. }
  intros Hname. by do 3 apply Hone.
Qed.

(** ** The rows that a statement touches *)

Lemma matching_spec (chat user : Z) (t : table) :
  SQL.matching chat user t =
    match stored chat user t with
    | Some text => {[user := (chat, text)]}
    | None => ∅
    end.
Proof.
  apply map_eq; intros u. unfold SQL.matching. rewrite map_lookup_filter.
  destruct (decide (u = user)) as [->|Hne].
  - unfold stored. destruct (t !! user) as [[c text]|]; simpl; [|done].
    destruct (decide (c = chat)) as [->|Hc].
    + rewrite lookup_singleton_eq. by rewrite option_guard_True.
    + rewrite lookup_empty, option_guard_False; [done|].
      simpl. by intros [? _].
  - transitivity (@None (Z * string)).
    + destruct (t !! u) as [[c' x]|]; simpl; [|done].
      rewrite option_guard_False; [done|]. simpl. by intros [_ ?].
    + destruct (stored chat user t);
        by rewrite ?lookup_singleton_ne, ?lookup_empty.
Qed.

Lemma select_where_spec (name : string) (chat user : Z) (db : database)
    (t : table) :
  db !! name = Some t ->
  SQL.select_where name chat user db = Ok (option_list (stored chat user t)).
Proof.
  intros Ht. unfold SQL.select_where. rewrite Ht, matching_spec.
  destruct (stored chat user t).
  - by rewrite map_to_list_singleton.
  - by rewrite map_to_list_empty.
Qed.

Lemma remaining_lookup (chat user u : Z) (t : table) :
  SQL.remaining chat user t !! u =
    if decide (u = user) then
      match t !! user with
      | Some (chat0, text) =>
          if decide (chat0 = chat) then None else Some (chat0, text)
      | None => None
      end
    else t !! u.
Proof.
  unfold SQL.remaining. rewrite map_lookup_filter.
  destruct (decide (u = user)) as [->|Hne].
  - destruct (t !! user) as [[c text]|]; simpl; [|done].
    destruct (decide (c = chat)) as [->|Hc].
    + rewrite option_guard_False; [done|]. simpl. intros Hn. by apply Hn.
    + rewrite option_guard_True; [done|]. simpl. by intros [? _].
  - destruct (t !! u) as [[c text]|]; simpl; [|done].
    rewrite option_guard_True; [done|]. simpl. by intros [_ ?].
Qed.

Lemma remaining_spec (chat user : Z) (t : table) :
  SQL.remaining chat user t =
    match stored chat user t with
    | Some _ => delete user t
    | None => t
    end.
Proof.
  apply map_eq; intros u. rewrite remaining_lookup. unfold stored.
  destruct (decide (u = user)) as [->|Hne].
  - destruct (t !! user) as [[c text]|] eqn:Hu.
    + destruct (decide (c = chat)); [by rewrite lookup_delete_eq|done].
    + done.
  - destruct (t !! user) as [[c text]|] eqn:Hu; [|done].
    destruct (decide (c = chat)); [by rewrite lookup_delete_ne|done].
Qed.

Lemma stored_Some (chat user : Z) (t : table) (text : string) :
  stored chat user t = Some text <-> t !! user = Some (chat, text).
Proof.
  unfold stored. destruct (t !! user) as [[c x]|]; [|naive_solver].
  destruct (decide (c = chat)); naive_solver.
Qed.

Lemma upsert_lookup_eq (user chat : Z) (text : string) (t : table) :
  SQL.upsert user chat text t !! user =
    Some (match t !! user with Some (chat0, _) => chat0 | None => chat end,
          text).
Proof.
  unfold SQL.upsert.
  destruct (t !! user) as [[c x]|]; by rewrite lookup_insert_eq.
Qed.

Lemma upsert_lookup_ne (user chat u : Z) (text : string) (t : table) :
  u ≠ user -> SQL.upsert user chat text t !! u = t !! u.
Proof.
  intros Hne. unfold SQL.upsert.
  destruct (t !! user) as [[c x]|]; by rewrite lookup_insert_ne.
Qed.

(** The upsert writes the row of the key itself exactly when the user has
    no row under another chat. *)
Lemma stored_upsert (user chat : Z) (text : string) (t : table) :
  stored chat user (SQL.upsert user chat text t) =
    match t !! user with
    | Some (chat0, _) => if decide (chat0 = chat) then Some text else None
    | None => Some text
    end.
Proof.
  unfold stored. rewrite upsert_lookup_eq.
  destruct (t !! user) as [[c x]|]; [done|].
  by rewrite decide_True.
Qed.

(** ** Running the statements *)

Lemma execute_insert (name : string) (user chat : Z) (text : string)
    (st : storage) (t : table) :
  backend st !! name = Some t ->
  execute (SQL.insert_on_conflict_update name user chat text) st =
    (Ok tt,
     {| _db := _db st;
        backend := <[name := SQL.upsert user chat text t]> (backend st) |}).
Proof.
  intros Ht. unfold execute, SQL.insert_on_conflict_update. by rewrite Ht.
Qed.

Lemma execute_delete (name : string) (chat user : Z) (st : storage)
    (t : table) :
  backend st !! name = Some t ->
  execute (SQL.delete_where name chat user) st =
    (Ok tt,
     {| _db := _db st;
        backend := <[name := SQL.remaining chat user t]> (backend st) |}).
Proof. intros Ht. unfold execute, SQL.delete_where. by rewrite Ht. Qed.

Lemma execute_drop (name : string) (st : storage) :
  execute (SQL.drop_table name) st =
    match backend st !! name with
    | Some _ =>
        (Ok tt, {| _db := _db st; backend := delete name (backend st) |})
    | None => (Raise (OperationalError name), st)
    end.
Proof. unfold execute, SQL.drop_table. by destruct (backend st !! name). Qed.

Lemma query_select (name : string) (chat user : Z) (st : storage)
    (t : table) :
  backend st !! name = Some t ->
  query (SQL.select_where name chat user) st =
    (Ok (option_list (stored chat user t)), st).
Proof. intros Ht. unfold query. by rewrite (select_where_spec _ _ _ _ t). Qed.

Lemma bind_commit (m : M unit) (st : storage) :
  bind m (fun _ => SQLiteStorage.commit) st = m st.
Proof.
  unfold bind, SQLiteStorage.commit, ret.
  by destruct (m st) as [[[]|e] st'].
Qed.

(** ** Where the two classes run the same statements *)

Lemma set_state_agree (chat user : Z) (state : option string) (st : storage) :
  PGStorage.set_state chat user state st =
  SQLiteStorage.set_state chat user state st.
Proof.
  unfold PGStorage.set_state, SQLiteStorage.set_state.
  rewrite !bind_get_db.
  destruct state as [s|]; simpl; by rewrite bind_commit.
Qed.

Lemma set_data_agree `{Serializer} (chat user : Z) (data : value)
    (st : storage) :
  PGStorage.set_data chat user data st =
  SQLiteStorage.set_data chat user data st.
Proof.
  unfold PGStorage.set_data, SQLiteStorage.set_data.
  rewrite !bind_get_db. destruct (truthy data); by rewrite bind_commit.
Qed.

Lemma set_bucket_agree `{Serializer} (chat user : Z) (bucket : value)
    (st : storage) :
  PGStorage.set_bucket chat user bucket st =
  SQLiteStorage.set_bucket chat user bucket st.
Proof.
  unfold PGStorage.set_bucket, SQLiteStorage.set_bucket.
  rewrite !bind_get_db. by rewrite bind_commit.
Qed.

Lemma reset_all_agree (full : bool) (st : storage) :
  PGStorage.reset_all full st = SQLiteStorage.reset_all full st.
Proof.
  unfold PGStorage.reset_all, SQLiteStorage.reset_all.
  rewrite !bind_get_db. unfold bind at 1 3.
  destruct (execute (SQL.drop_table aiogram_state) _) as [[[]|e] st'];
    [|done].
  by rewrite bind_commit.
Qed.

Lemma get_states_list_agree (st : storage) :
  PGStorage.get_states_list st = SQLiteStorage.get_states_list st.
Proof. done. Qed.

(** ** What each method does to an opened database *)

Section Runs.
Context `{Serializer}.
Variable st : storage.

Lemma set_state_run (chat user : Z) (state : option string) (t : table) :
  opened st !! aiogram_state = Some t ->
  SQLiteStorage.set_state chat user state st =
    (Ok tt,
     connected (<[aiogram_state :=
                    match state with
                    | Some s => SQL.upsert user chat s t
                    | None => SQL.remaining chat user t
                    end]> (opened st))).
Proof.
  intros Ht. unfold SQLiteStorage.set_state.
  rewrite bind_get_db. destruct state as [s|]; simpl; rewrite bind_commit.
  - by rewrite (execute_insert _ _ _ _ _ t).
  - by rewrite (execute_delete _ _ _ _ t).
Qed.

Lemma get_state_run (chat user : Z) (default : option string) (t : table) :
  opened st !! aiogram_state = Some t ->
  SQLiteStorage.get_state chat user default st =
    (Ok (match stored chat user t with
         | Some text => Some text
         | None => default
         end),
     connected (opened st)).
Proof.
  intros Ht. unfold SQLiteStorage.get_state.
  rewrite bind_get_db. unfold bind.
  rewrite (query_select _ _ _ _ t) by done.
  destruct (stored chat user t); simpl; [done|].
  by destruct default.
Qed.

Lemma pg_get_state_run (chat user : Z) (default : option string)
    (t : table) :
  opened st !! aiogram_state = Some t ->
  PGStorage.get_state chat user default st =
    (Ok (match stored chat user t with
         | Some text =>
             if String.eqb text EmptyString then default else Some text
         | None => default
         end),
     connected (opened st)).
Proof.
  intros Ht. unfold PGStorage.get_state.
  rewrite bind_get_db. unfold bind.
  rewrite (query_select _ _ _ _ t) by done.
  destruct (stored chat user t) as [text|]; simpl.
  - destruct (String.eqb text EmptyString); simpl; [|done].
    by destruct default.
  - by destruct default.
Qed.

Lemma set_data_run (chat user : Z) (data : value) (t : table) :
  opened st !! aiogram_data = Some t ->
  SQLiteStorage.set_data chat user data st =
    (Ok tt,
     connected (<[aiogram_data :=
                    if truthy data
                    then SQL.upsert user chat (encode data) t
                    else SQL.remaining chat user t]> (opened st))).
Proof.
  intros Ht. unfold SQLiteStorage.set_data.
  rewrite bind_get_db. destruct (truthy data); rewrite bind_commit.
  - by rewrite (execute_insert _ _ _ _ _ t).
  - by rewrite (execute_delete _ _ _ _ t).
Qed.

Lemma get_data_run (chat user : Z) (default : value) (t : table) :
  opened st !! aiogram_data = Some t ->
  SQLiteStorage.get_data chat user default st =
    (match stored chat user t with
     | Some text =>
         match decode text with
         | Some v => Ok v
         | None => Raise DecodeError
         end
     | None => Ok (py_or default (VDict []))
     end,
     connected (opened st)).
Proof.
  intros Ht. unfold SQLiteStorage.get_data.
  rewrite bind_get_db. unfold bind.
  rewrite (query_select _ _ _ _ t) by done.
  destruct (stored chat user t) as [text|]; simpl; [|done].
  unfold jsonpickle_decode. by destruct (decode text).
Qed.

Lemma set_bucket_run (chat user : Z) (bucket : value) (t : table) :
  opened st !! aiogram_bucket = Some t ->
  SQLiteStorage.set_bucket chat user bucket st =
    (Ok tt,
     connected (<[aiogram_bucket :=
                    SQL.upsert user chat (encode bucket) t]> (opened st))).
Proof.
  intros Ht. unfold SQLiteStorage.set_bucket.
  rewrite bind_get_db, bind_commit.
  by rewrite (execute_insert _ _ _ _ _ t).
Qed.

Lemma get_bucket_run (chat user : Z) (default : value) (t : table) :
  opened st !! aiogram_bucket = Some t ->
  SQLiteStorage.get_bucket chat user default st =
    (match stored chat user t with
     | Some text =>
         match decode text with
         | Some v => Ok v
         | None => Raise DecodeError
         end
     | None => Ok (py_or default (VDict []))
     end,
     connected (opened st)).
Proof.
  intros Ht. unfold SQLiteStorage.get_bucket.
  rewrite bind_get_db. unfold bind.
  rewrite (query_select _ _ _ _ t) by done.
  destruct (stored chat user t) as [text|]; simpl; [|done].
  unfold jsonpickle_decode. by destruct (decode text).
Qed.

Lemma get_states_list_run (t : table) :
  opened st !! aiogram_state = Some t ->
  SQLiteStorage.get_states_list st =
    (Ok ((fun r : Z * (Z * string) => (r.2.1, r.1)) <$> map_to_list t),
     connected (opened st)).
Proof.
  intros Ht. unfold SQLiteStorage.get_states_list.
  rewrite bind_get_db. unfold bind, query, SQL.select_all, ret. simpl.
  rewrite Ht. by rewrite <- list_fmap_compose.
Qed.

Lemma reset_all_run (full : bool) :
  SQLiteStorage.reset_all full st =
    match opened st !! aiogram_state with
    | None => (Raise (OperationalError aiogram_state), connected (opened st))
    | Some _ =>
        let db1 := delete aiogram_state (opened st) in
        if full then
          match db1 !! aiogram_data with
          | None => (Raise (OperationalError aiogram_data), connected db1)
          | Some _ =>
              let db2 := delete aiogram_data db1 in
              match db2 !! aiogram_bucket with
              | None =>
                  (Raise (OperationalError aiogram_bucket), connected db2)
              | Some _ => (Ok tt, connected (delete aiogram_bucket db2))
              end
          end
        else (Ok tt, connected db1)
    end.
Proof.
  unfold SQLiteStorage.reset_all. rewrite bind_get_db.
  unfold bind at 1. rewrite execute_drop. simpl.
  destruct (opened st !! aiogram_state); [|done].
  rewrite bind_commit. destruct full; [|done].
  unfold bind. rewrite execute_drop. simpl.
  destruct (delete aiogram_state (opened st) !! aiogram_data); [|done].
  rewrite execute_drop. simpl.
  by destruct (delete aiogram_data _ !! aiogram_bucket).
Qed.

End Runs.

(** ** Methods on a missing table *)

Lemma execute_statement_missing
    (statement : database -> result database) (name : string)
    (st : storage) :
  statement (backend st) = Raise (OperationalError name) ->
  execute statement st = (Raise (OperationalError name), st).
Proof. intros Hs. unfold execute. by rewrite Hs. Qed.

Lemma set_state_missing (chat user : Z) (state : option string)
    (st : storage) :
  opened st !! aiogram_state = None ->
  SQLiteStorage.set_state chat user state st =
    (Raise (OperationalError aiogram_state), connected (opened st)).
Proof.
  intros Ht. unfold SQLiteStorage.set_state. rewrite bind_get_db.
  destruct state as [s|]; simpl; rewrite bind_commit;
    apply execute_statement_missing; simpl;
    unfold SQL.insert_on_conflict_update, SQL.delete_where; by rewrite Ht.
Qed.

Lemma set_data_missing `{Serializer} (chat user : Z) (data : value)
    (st : storage) :
  opened st !! aiogram_data = None ->
  SQLiteStorage.set_data chat user data st =
    (Raise (OperationalError aiogram_data), connected (opened st)).
Proof.
  intros Ht. unfold SQLiteStorage.set_data. rewrite bind_get_db.
  destruct (truthy data); rewrite bind_commit;
    apply execute_statement_missing; simpl;
    unfold SQL.insert_on_conflict_update, SQL.delete_where; by rewrite Ht.
Qed.

Lemma set_bucket_missing `{Serializer} (chat user : Z) (bucket : value)
    (st : storage) :
  opened st !! aiogram_bucket = None ->
  SQLiteStorage.set_bucket chat user bucket st =
    (Raise (OperationalError aiogram_bucket), connected (opened st)).
Proof.
  intros Ht. unfold SQLiteStorage.set_bucket.
  rewrite bind_get_db, bind_commit.
  apply execute_statement_missing; simpl.
  unfold SQL.insert_on_conflict_update. by rewrite Ht.
Qed.

Lemma get_state_missing (chat user : Z) (default : option string)
    (st : storage) :
  opened st !! aiogram_state = None ->
  SQLiteStorage.get_state chat user default st =
    (Raise (OperationalError aiogram_state), connected (opened st)) /\
  PGStorage.get_state chat user default st =
    (Raise (OperationalError aiogram_state), connected (opened st)).
Proof.
  intros Ht. unfold SQLiteStorage.get_state, PGStorage.get_state.
  rewrite !bind_get_db. unfold bind, query, SQL.select_where. simpl.
  by rewrite Ht.
Qed.

Lemma get_states_list_missing (st : storage) :
  opened st !! aiogram_state = None ->
  SQLiteStorage.get_states_list st =
    (Raise (OperationalError aiogram_state), connected (opened st)).
Proof.
  intros Ht. unfold SQLiteStorage.get_states_list.
  rewrite bind_get_db. unfold bind, query, SQL.select_all. simpl.
  by rewrite Ht.
Qed.

(** ** The storage contract *)

(** C2.  [set_state] with a null state deletes the row of the user only
    when the stored chat is the given chat: the rows that stay are the old
    rows that do not match both columns, and when the user's row holds
    another chat the table is left as it was.  Both classes. *)
Theorem set_state_null_deletes_matching_row
    (st : storage) (t : table) (chat user : Z) :
  opened st !! aiogram_state = Some t ->
  exists t' : table,
    SQLiteStorage.set_state chat user None st =
      (Ok tt, connected (<[aiogram_state := t']> (opened st))) /\
    PGStorage.set_state chat user None st =
      (Ok tt, connected (<[aiogram_state := t']> (opened st))) /\
    (forall u c s,
        t' !! u = Some (c, s) <->
        t !! u = Some (c, s) /\ ¬ (c = chat /\ u = user)) /\
    (forall c s, t !! user = Some (c, s) -> c ≠ chat -> t' = t).
Proof.
  intros Ht. exists (SQL.remaining chat user t).
  rewrite set_state_agree, (set_state_run st chat user None t Ht).
  split_and!; [done|done| |].
  - intros u c s. rewrite remaining_lookup.
    destruct (decide (u = user)) as [->|Hne]; [|intuition congruence].
    destruct (t !! user) as [[c0 s0]|]; [|intuition congruence].
    destruct (decide (c0 = chat)) as [->|Hc].
    + split; [done|]. intros [[= <- <-] Hn]. by destruct Hn.
    + split; [|by intros [? _]].
      intros [= <- <-]. split; [done|]. by intros [? _].
  - intros c s Hrow Hc. rewrite remaining_spec. unfold stored.
    rewrite Hrow. by rewrite decide_False.
Qed.

(** On the sample database: user 100 has a state under chat 1, and the
    delete is asked for chat 2. *)
Lemma set_state_null_deletes_matching_row_witness :
  exists t' : table,
    SQLiteStorage.set_state 2 100 None
      (connected sample_db) =
      (Ok tt, connected (<[aiogram_state := t']>
         (opened (connected sample_db)))) /\
    PGStorage.set_state 2 100 None
      (connected sample_db) =
      (Ok tt, connected (<[aiogram_state := t']>
         (opened (connected sample_db)))) /\
    (forall u c s,
        t' !! u = Some (c, s) <->
        sample_state !! u = Some (c, s) /\
        ¬ (c = 2 /\ u = 100)) /\
    (forall c s,
        sample_state !! 100 = Some (c, s) ->
        c ≠ 2 -> t' = sample_state).
Proof.
  apply (set_state_null_deletes_matching_row
           (connected sample_db)
           sample_state 2 100).
  reflexivity.
Defined.

(** C9.  When the user has a state row under chat [c1], [set_state] with a
    state and another chat [c2] changes the state column of that row only:
    the row keeps [c1], and [get_state] for [(c2, user)] finds no row and
    returns the default.  Both classes. *)
Theorem set_state_keeps_stored_chat
    (st : storage) (t : table) (user c1 c2 : Z) (old new : string)
    (default : option string) :
  opened st !! aiogram_state = Some t ->
  t !! user = Some (c1, old) ->
  c1 ≠ c2 ->
  let st' :=
    connected (<[aiogram_state := <[user := (c1, new)]> t]> (opened st)) in
  SQLiteStorage.set_state c2 user (Some new) st = (Ok tt, st') /\
  SQLiteStorage.get_state c2 user default st' = (Ok default, st') /\
  PGStorage.set_state c2 user (Some new) st = (Ok tt, st') /\
  PGStorage.get_state c2 user default st' = (Ok default, st').
Proof.
  intros Ht Hrow Hc st'.
  assert (Hset : SQLiteStorage.set_state c2 user (Some new) st = (Ok tt, st')).
  { rewrite (set_state_run st c2 user (Some new) t Ht).
    unfold SQL.upsert. by rewrite Hrow. }
  assert (Ht' : opened st' !! aiogram_state = Some (<[user := (c1, new)]> t)).
  { unfold st'. by rewrite opened_connected, lookup_insert_eq. }
  assert (Hmiss : stored c2 user (<[user := (c1, new)]> t) = None).
  { unfold stored. by rewrite lookup_insert_eq, decide_False. }
  assert (Hst' : connected (opened st') = st') by done.
  split_and!.
  - done.
  - rewrite (get_state_run st' c2 user default _ Ht'). by rewrite Hmiss, Hst'.
  - by rewrite set_state_agree.
  - rewrite (pg_get_state_run st' c2 user default _ Ht').
    by rewrite Hmiss, Hst'.
Qed.

(** On the sample database: user 100, known under chat 1, sets a state
    from chat 2. *)
Lemma set_state_keeps_stored_chat_witness :
  let st := connected sample_db in
  let st' :=
    connected (<[aiogram_state :=
                   <[100 := (1, "form"%string)]> sample_state]>
                 (opened st)) in
  SQLiteStorage.set_state 2 100 (Some "form"%string) st = (Ok tt, st') /\
  SQLiteStorage.get_state 2 100 (Some "idle"%string) st' =
    (Ok (Some "idle"%string), st') /\
  PGStorage.set_state 2 100 (Some "form"%string) st = (Ok tt, st') /\
  PGStorage.get_state 2 100 (Some "idle"%string) st' =
    (Ok (Some "idle"%string), st').
Proof.
  apply (set_state_keeps_stored_chat
           (connected sample_db)
           sample_state 100 1 2 "menu" "form"
           (Some "idle"%string));
    [reflexivity | reflexivity | lia].
Defined.

(** C4, as the claim has it, fails on a storage whose state table is
    gone: after [reset_all(full=False)] the same storage object raises on
    [reset_all(full=True)] at the state table and drops nothing, so the
    data row of user 100 stays.  Both classes. *)
Lemma reset_all_full_keeps_rows_after_reset :
  let st0 := connected (delete aiogram_state sample_db) in
  SQLiteStorage.reset_all false (connected sample_db) = (Ok tt, st0) /\
  PGStorage.reset_all false (connected sample_db) = (Ok tt, st0) /\
  SQLiteStorage.reset_all true st0 =
    (Raise (OperationalError aiogram_state), st0) /\
  PGStorage.reset_all true st0 =
    (Raise (OperationalError aiogram_state), st0) /\
  row_at (backend st0) aiogram_data 100 =
    Some (1, Json.dumps (VDict sample_mapping)).
Proof. split_and!; by vm_compute. Qed.

(** C4, amended.  On every storage, after [reset_all(full=False)] no
    state row is left and every row of another table is as it was before
    the call; the call returns exactly when the state table exists.
    [reset_all(full=True)] returns exactly when the three tables exist,
    and then it drops them: none of their rows is left, and a storage that
    connects afterwards finds them empty.  Both classes. *)
Theorem reset_all_removes_rows (st : storage) :
  (exists (r : result unit) (st1 : storage),
      SQLiteStorage.reset_all false st = (r, st1) /\
      PGStorage.reset_all false st = (r, st1) /\
      (r = Ok tt <-> is_Some (opened st !! aiogram_state)) /\
      (forall u, row_at (backend st1) aiogram_state u = None) /\
      (forall name u,
          name ≠ aiogram_state ->
          row_at (backend st1) name u = row_at (backend st) name u)) /\
  (exists (r : result unit) (st2 : storage),
      SQLiteStorage.reset_all true st = (r, st2) /\
      PGStorage.reset_all true st = (r, st2) /\
      (r = Ok tt <->
       is_Some (opened st !! aiogram_state) /\
       is_Some (opened st !! aiogram_data) /\
       is_Some (opened st !! aiogram_bucket)) /\
      (r = Ok tt ->
       forall name u,
         name ∈ [aiogram_state; aiogram_data; aiogram_bucket] ->
         backend st2 !! name = None /\
         row_at (backend st2) name u = None /\
         opened (init (backend st2)) !! name = Some ∅)).
Proof.
  destruct table_names_distinct as (Hsd & Hsb & Hdb). split.
  - rewrite reset_all_agree, reset_all_run.
    destruct (opened st !! aiogram_state) as [ts|] eqn:Hs; cbv zeta.
    + exists (Ok tt), (connected (delete aiogram_state (opened st))).
      split_and!.
      * done.
      * done.
      * split; eauto.
      * intros u. unfold row_at, connected. cbn [backend].
        by rewrite lookup_delete_eq.
      * intros name u Hname. rewrite <- (row_at_opened st).
        unfold row_at, connected. cbn [backend].
        by rewrite lookup_delete_ne.
    + exists (Raise (OperationalError aiogram_state)), (connected (opened st)).
      split_and!.
      * done.
      * done.
      * split; [done|]. by intros [? ?].
      * intros u. unfold row_at, connected. cbn [backend]. by rewrite Hs.
      * intros name u Hname. by rewrite <- (row_at_opened st).
  - rewrite reset_all_agree, reset_all_run.
    destruct (opened st !! aiogram_state) as [ts|] eqn:Hs; cbv zeta;
      [|eexists _, _; split_and!; [done|done| |done];
        split; [done|]; by intros ([? ?] & _)].
    rewrite lookup_delete_ne by done.
    destruct (opened st !! aiogram_data) as [td|] eqn:Hd;
      [|eexists _, _; split_and!; [done|done| |done];
        split; [done|]; by intros (_ & [? ?] & _)].
    rewrite 2!lookup_delete_ne by done.
    destruct (opened st !! aiogram_bucket) as [tb|] eqn:Hb;
      [|eexists _, _; split_and!; [done|done| |done];
        split; [done|]; by intros (_ & _ & [? ?])].
    exists (Ok tt),
      (connected (delete aiogram_bucket
         (delete aiogram_data (delete aiogram_state (opened st))))).
    assert (Hgone : forall name : string,
               name ∈ [aiogram_state; aiogram_data; aiogram_bucket] ->
               delete aiogram_bucket
                 (delete aiogram_data (delete aiogram_state (opened st)))
               !! name = None).
    { intros name Hname. apply elem_of_cons in Hname as [->|Hname].
      { rewrite 2!lookup_delete_ne by done. by rewrite lookup_delete_eq. }
      apply elem_of_cons in Hname as [->|Hname].
      { rewrite lookup_delete_ne by done. by rewrite lookup_delete_eq. }
      apply list_elem_of_singleton in Hname as ->.
      by rewrite lookup_delete_eq. }
    split_and!.
    + done.
    + done.
    + split; [eauto|done].
    + intros _ name u Hname. pose proof (Hgone name Hname) as Hnone.
      split_and!.
      * exact Hnone.
      * unfold row_at, connected. cbn [backend]. by rewrite Hnone.
      * rewrite opened_closed_lookup by done.
        unfold connected. cbn [backend]. by rewrite Hnone.
Qed.

(** On the sample database, where the three tables exist. *)
Lemma reset_all_removes_rows_witness :
  (exists (r : result unit) (st1 : storage),
      SQLiteStorage.reset_all false (connected sample_db) = (r, st1) /\
      PGStorage.reset_all false (connected sample_db) = (r, st1) /\
      (r = Ok tt <-> is_Some (opened (connected sample_db) !! aiogram_state)) /\
      (forall u, row_at (backend st1) aiogram_state u = None) /\
      (forall name u,
          name ≠ aiogram_state ->
          row_at (backend st1) name u =
          row_at (backend (connected sample_db)) name u)) /\
  (exists (r : result unit) (st2 : storage),
      SQLiteStorage.reset_all true (connected sample_db) = (r, st2) /\
      PGStorage.reset_all true (connected sample_db) = (r, st2) /\
      (r = Ok tt <->
       is_Some (opened (connected sample_db) !! aiogram_state) /\
       is_Some (opened (connected sample_db) !! aiogram_data) /\
       is_Some (opened (connected sample_db) !! aiogram_bucket)) /\
      (r = Ok tt ->
       forall name u,
         name ∈ [aiogram_state; aiogram_data; aiogram_bucket] ->
         backend st2 !! name = None /\
         row_at (backend st2) name u = None /\
         opened (init (backend st2)) !! name = Some ∅)).
Proof. exact (reset_all_removes_rows (connected sample_db)). Defined.

(** C6, as the claim has it, fails: a second [reset_all] on the same
    storage finds the state table dropped and raises.  Both classes. *)
Lemma reset_all_twice_raises :
  (let* _ := SQLiteStorage.reset_all true in SQLiteStorage.reset_all true)
    (init ∅) =
    (Raise (OperationalError aiogram_state), connected ∅) /\
  (let* _ := PGStorage.reset_all true in PGStorage.reset_all true)
    (init ∅) =
    (Raise (OperationalError aiogram_state), connected ∅).
Proof. split; by vm_compute. Qed.

(** C6, amended.  [reset_all] passes on the error of the first table that
    is missing: it returns exactly when the state table exists and, for
    [full], the data and bucket tables exist too.  When the state table is
    missing it raises the error of the state table and changes nothing;
    with [full], when the data table is the first one missing it raises
    the error of the data table after the state table is dropped, and when
    only the bucket table is missing it raises the error of the bucket
    table after the other two are dropped.  Both classes. *)
Theorem reset_all_raises_on_missing_table (st : storage) (full : bool) :
  PGStorage.reset_all full st = SQLiteStorage.reset_all full st /\
  ((exists st', SQLiteStorage.reset_all full st = (Ok tt, st')) <->
   is_Some (opened st !! aiogram_state) /\
   (full = true ->
    is_Some (opened st !! aiogram_data) /\
    is_Some (opened st !! aiogram_bucket))) /\
  (opened st !! aiogram_state = None ->
   SQLiteStorage.reset_all full st =
     (Raise (OperationalError aiogram_state), connected (opened st))) /\
  (is_Some (opened st !! aiogram_state) ->
   opened st !! aiogram_data = None ->
   SQLiteStorage.reset_all true st =
     (Raise (OperationalError aiogram_data),
      connected (delete aiogram_state (opened st))) /\
   PGStorage.reset_all true st =
     (Raise (OperationalError aiogram_data),
      connected (delete aiogram_state (opened st)))) /\
  (is_Some (opened st !! aiogram_state) ->
   is_Some (opened st !! aiogram_data) ->
   opened st !! aiogram_bucket = None ->
   SQLiteStorage.reset_all true st =
     (Raise (OperationalError aiogram_bucket),
      connected (delete aiogram_data (delete aiogram_state (opened st)))) /\
   PGStorage.reset_all true st =
     (Raise (OperationalError aiogram_bucket),
      connected (delete aiogram_data (delete aiogram_state (opened st))))).
Proof.
  destruct table_names_distinct as (Hsd & Hsb & Hdb).
  split; [apply reset_all_agree|]. split_and!.
  - rewrite reset_all_run.
    destruct (opened st !! aiogram_state) as [ts|] eqn:Hs; simpl.
    + destruct full.
      * rewrite lookup_delete_ne by done.
        destruct (opened st !! aiogram_data) as [td|] eqn:Hd.
        -- rewrite 2!lookup_delete_ne by done.
           destruct (opened st !! aiogram_bucket) as [tb|] eqn:Hb.
           ++ split; [eauto|]. intros _. eauto.
           ++ split; [by intros [? ?]|].
              intros [_ Hfull]. destruct (Hfull eq_refl) as [_ [? ?]]. done.
        -- split; [by intros [? ?]|].
           intros [_ Hfull]. destruct (Hfull eq_refl) as [[? ?] _]. done.
      * split; [|eauto]. intros _. split; [eauto|done].
    + split; [by intros [? ?]|]. intros [[? ?] _]. done.
  - intros Hs. by rewrite reset_all_run, Hs.
  - intros [ts Hs] Hd. rewrite reset_all_agree, reset_all_run, Hs. cbv zeta.
    by rewrite lookup_delete_ne, Hd.
  - intros [ts Hs] [td Hd] Hb.
    rewrite reset_all_agree, reset_all_run, Hs. cbv zeta.
    rewrite lookup_delete_ne, Hd by done.
    by rewrite 2!lookup_delete_ne, Hb.
Qed.

(** [reset_all(full=True)] on the sample database without its bucket
    table, and without its data table: the tables before the missing one
    are dropped.  Both classes. *)
Lemma reset_all_stops_at_missing_table :
  SQLiteStorage.reset_all true (connected (delete aiogram_bucket sample_db)) =
    (Raise (OperationalError aiogram_bucket), connected ∅) /\
  PGStorage.reset_all true (connected (delete aiogram_bucket sample_db)) =
    (Raise (OperationalError aiogram_bucket), connected ∅) /\
  SQLiteStorage.reset_all true (connected (delete aiogram_data sample_db)) =
    (Raise (OperationalError aiogram_data),
     connected {[aiogram_bucket := (∅ : table)]}) /\
  PGStorage.reset_all true (connected (delete aiogram_data sample_db)) =
    (Raise (OperationalError aiogram_data),
     connected {[aiogram_bucket := (∅ : table)]}).
Proof. split_and!; by vm_compute. Qed.

(** The pairs that [get_states_list] builds from the rows of a table. *)
Lemma states_list_elem (t : table) (c u : Z) :
  (c, u) ∈ (fun r : Z * (Z * string) => (r.2.1, r.1)) <$> map_to_list t <->
  exists s, t !! u = Some (c, s).
Proof.
  rewrite list_elem_of_fmap. split.
  - intros [[u' [c' s]] [[= -> ->] Hin]].
    exists s. by apply elem_of_map_to_list.
  - intros [s Hs]. exists (u, (c, s)). split; [done|].
    by apply elem_of_map_to_list.
Qed.

Lemma states_list_NoDup (t : table) :
  NoDup ((fun r : Z * (Z * string) => (r.2.1, r.1)) <$> map_to_list t).
Proof.
  apply NoDup_fmap_2_strong; [|apply NoDup_map_to_list].
  intros [u1 [c1 s1]] [u2 [c2 s2]] H1 H2 [= -> ->].
  apply elem_of_map_to_list in H1, H2. congruence.
Qed.

(** On a storage with a state table, [get_states_list] returns every pair
    (chat, user) of a row of the table once, the chat first, and nothing
    else; after [set_state] for (1, 100) and for (2, 200) on an empty
    state table the list holds these two pairs and no other. *)
Lemma states_list_of_table (st : storage) (t : table) :
  opened st !! aiogram_state = Some t ->
  (exists l : list (Z * Z),
      SQLiteStorage.get_states_list st = (Ok l, connected (opened st)) /\
      PGStorage.get_states_list st = (Ok l, connected (opened st)) /\
      NoDup l /\
      forall c u : Z, (c, u) ∈ l <-> exists s, t !! u = Some (c, s)) /\
  (t = ∅ ->
   forall s1 s2 : string,
   exists (l : list (Z * Z)) (st' : storage),
     (let* _ := SQLiteStorage.set_state 1 100 (Some s1) in
      let* _ := SQLiteStorage.set_state 2 200 (Some s2) in
      SQLiteStorage.get_states_list) st = (Ok l, st') /\
     (let* _ := PGStorage.set_state 1 100 (Some s1) in
      let* _ := PGStorage.set_state 2 200 (Some s2) in
      PGStorage.get_states_list) st = (Ok l, st') /\
     l ≡ₚ [(1, 100); (2, 200)]).
Proof.
  intros Ht. split.
  - eexists.
    change PGStorage.get_states_list with SQLiteStorage.get_states_list.
    rewrite (get_states_list_run st t Ht).
    split_and!; [done|done|apply states_list_NoDup|].
    intros c u. apply states_list_elem.
  - intros -> s1 s2.
    set (t2 := <[200 := (2, s2)]> (<[100 := (1, s1)]> (∅ : table))).
    set (st1 := connected (<[aiogram_state := <[100 := (1, s1)]> ∅]>
                             (opened st))).
    set (st2 := connected (<[aiogram_state := t2]> (opened st1))).
    assert (H1 : SQLiteStorage.set_state 1 100 (Some s1) st = (Ok tt, st1)).
    { by rewrite (set_state_run st 1 100 (Some s1) ∅ Ht). }
    assert (Ht1 : opened st1 !! aiogram_state = Some (<[100 := (1, s1)]> ∅)).
    { unfold st1. by rewrite opened_connected, lookup_insert_eq. }
    assert (H2 : SQLiteStorage.set_state 2 200 (Some s2) st1 = (Ok tt, st2)).
    { by rewrite (set_state_run st1 2 200 (Some s2) _ Ht1). }
    assert (Ht2 : opened st2 !! aiogram_state = Some t2).
    { unfold st2. by rewrite opened_connected, lookup_insert_eq. }
    pose proof (get_states_list_run st2 t2 Ht2) as H3.
    assert (H1' : PGStorage.set_state 1 100 (Some s1) st = (Ok tt, st1))
      by by rewrite set_state_agree.
    assert (H2' : PGStorage.set_state 2 200 (Some s2) st1 = (Ok tt, st2))
      by by rewrite set_state_agree.
    eexists _, _. unfold bind.
    change PGStorage.get_states_list with SQLiteStorage.get_states_list.
    rewrite H1, H2, H1', H2', H3.
    split_and!; [done|done|].
    apply NoDup_Permutation.
    + apply states_list_NoDup.
    + apply NoDup_cons. split; [|apply NoDup_singleton].
      by intros [=]%list_elem_of_singleton.
    + intros [c u]. rewrite states_list_elem. unfold t2. split.
      * intros [s Hs].
        destruct (decide (u = 200)) as [->|H200].
        { rewrite lookup_insert_eq in Hs. set_solver. }
        rewrite lookup_insert_ne in Hs by done.
        destruct (decide (u = 100)) as [->|H100].
        { rewrite lookup_insert_eq in Hs. set_solver. }
        by rewrite lookup_insert_ne in Hs.
      * set_unfold. intros [[= -> ->]|[[= -> ->]|[]]].
        -- exists s1. by rewrite lookup_insert_ne, lookup_insert_eq.
        -- exists s2. by rewrite lookup_insert_eq.
Qed.

(** C7, as the claim has it, fails on a storage whose state table is
    gone: after [reset_all(full=False)] the same storage object raises on
    [get_states_list] and returns no list.  And the list after the two
    calls of [set_state] is (1, 100) and (2, 200) from an empty state
    table only: with a row of user 300 it holds (3, 300) too.  Both
    classes. *)
Lemma get_states_list_raises_after_reset :
  let st0 := connected (delete aiogram_state sample_db) in
  let st1 := connected {[aiogram_state :=
                           ({[300 := (3, "menu"%string)]} : table)]} in
  SQLiteStorage.reset_all false (connected sample_db) = (Ok tt, st0) /\
  PGStorage.reset_all false (connected sample_db) = (Ok tt, st0) /\
  SQLiteStorage.get_states_list st0 =
    (Raise (OperationalError aiogram_state), st0) /\
  PGStorage.get_states_list st0 =
    (Raise (OperationalError aiogram_state), st0) /\
  (exists l : list (Z * Z),
      ((let* _ := SQLiteStorage.set_state 1 100 (Some "form"%string) in
        let* _ := SQLiteStorage.set_state 2 200 (Some "form"%string) in
        SQLiteStorage.get_states_list) st1).1 = Ok l /\
      ((let* _ := PGStorage.set_state 1 100 (Some "form"%string) in
        let* _ := PGStorage.set_state 2 200 (Some "form"%string) in
        PGStorage.get_states_list) st1).1 = Ok l /\
      l ≡ₚ [(1, 100); (2, 200); (3, 300)]).
Proof.
  split_and!; try by vm_compute.
  eexists. split_and!; [by vm_compute|by vm_compute|].
  apply (Permutation_cons_append [(1, 100); (2, 200)] (3, 300)).
Qed.

(** C7, amended.  On every storage: when the state table exists,
    [get_states_list] returns every pair (chat, user) of a row of the
    state table once, the chat first, and nothing else, and after
    [set_state] for (1, 100) and for (2, 200) on an empty state table the
    list holds (1, 100) and (2, 200) and no other pair; when the state
    table is missing, [get_states_list] raises the error of the missing
    table and changes no row.  Both classes. *)
Theorem get_states_list_pairs (st : storage) :
  match opened st !! aiogram_state with
  | Some t =>
      (exists l : list (Z * Z),
          SQLiteStorage.get_states_list st = (Ok l, connected (opened st)) /\
          PGStorage.get_states_list st = (Ok l, connected (opened st)) /\
          NoDup l /\
          forall c u : Z, (c, u) ∈ l <-> exists s, t !! u = Some (c, s)) /\
      (t = ∅ ->
       forall s1 s2 : string,
       exists (l : list (Z * Z)) (st' : storage),
         (let* _ := SQLiteStorage.set_state 1 100 (Some s1) in
          let* _ := SQLiteStorage.set_state 2 200 (Some s2) in
          SQLiteStorage.get_states_list) st = (Ok l, st') /\
         (let* _ := PGStorage.set_state 1 100 (Some s1) in
          let* _ := PGStorage.set_state 2 200 (Some s2) in
          PGStorage.get_states_list) st = (Ok l, st') /\
         l ≡ₚ [(1, 100); (2, 200)])
  | None =>
      SQLiteStorage.get_states_list st =
        (Raise (OperationalError aiogram_state), connected (opened st)) /\
      PGStorage.get_states_list st =
        (Raise (OperationalError aiogram_state), connected (opened st))
  end.
Proof.
  destruct (opened st !! aiogram_state) as [t|] eqn:Ht.
  - by apply states_list_of_table.
  - change PGStorage.get_states_list with SQLiteStorage.get_states_list.
    by rewrite get_states_list_missing.
Qed.

(** On a new storage over an empty database, where the connection creates
    the state table. *)
Lemma get_states_list_pairs_witness :
  (exists l : list (Z * Z),
      SQLiteStorage.get_states_list (init ∅) =
        (Ok l, connected (opened (init ∅))) /\
      PGStorage.get_states_list (init ∅) =
        (Ok l, connected (opened (init ∅))) /\
      NoDup l /\
      forall c u : Z,
        (c, u) ∈ l <-> exists s, (∅ : table) !! u = Some (c, s)) /\
  ((∅ : table) = ∅ ->
   forall s1 s2 : string,
   exists (l : list (Z * Z)) (st' : storage),
     (let* _ := SQLiteStorage.set_state 1 100 (Some s1) in
      let* _ := SQLiteStorage.set_state 2 200 (Some s2) in
      SQLiteStorage.get_states_list) (init ∅) =
       (Ok l, st') /\
     (let* _ := PGStorage.set_state 1 100 (Some s1) in
      let* _ := PGStorage.set_state 2 200 (Some s2) in
      PGStorage.get_states_list) (init ∅) =
       (Ok l, st') /\
     l ≡ₚ [(1, 100); (2, 200)]).
Proof. exact (get_states_list_pairs (init ∅)). Defined.

(** ** The two classes side by side *)

Section Agreement.
Context `{Serializer}.
Variable st : storage.

Lemma pg_get_data_run (chat user : Z) (default : value) (t : table) :
  opened st !! aiogram_data = Some t ->
  PGStorage.get_data chat user default st =
    (match stored chat user t with
     | Some text =>
         if String.eqb text EmptyString
         then Ok (py_or default (VDict []))
         else match decode text with
              | Some v => Ok v
              | None => Raise DecodeError
              end
     | None => Ok (py_or default (VDict []))
     end,
     connected (opened st)).
Proof.
  intros Ht. unfold PGStorage.get_data.
  rewrite bind_get_db. unfold bind.
  rewrite (query_select _ _ _ _ t) by done.
  destruct (stored chat user t) as [text|]; simpl; [|done].
  destruct (String.eqb text EmptyString); simpl; [done|].
  unfold jsonpickle_decode. by destruct (decode text).
Qed.

Lemma pg_get_bucket_run (chat user : Z) (default : value) (t : table) :
  opened st !! aiogram_bucket = Some t ->
  PGStorage.get_bucket chat user default st =
    (match stored chat user t with
     | Some text =>
         if String.eqb text EmptyString
         then Ok (py_or default (VDict []))
         else match decode text with
              | Some v => Ok v
              | None => Raise DecodeError
              end
     | None => Ok (py_or default (VDict []))
     end,
     connected (opened st)).
Proof.
  intros Ht. unfold PGStorage.get_bucket.
  rewrite bind_get_db. unfold bind.
  rewrite (query_select _ _ _ _ t) by done.
  destruct (stored chat user t) as [text|]; simpl; [|done].
  destruct (String.eqb text EmptyString); simpl; [done|].
  unfold jsonpickle_decode. by destruct (decode text).
Qed.

(** The reads agree as long as the row that is read holds a text that is
    not empty. *)
Lemma get_state_agree (chat user : Z) (default : option string)
    (t : table) :
  opened st !! aiogram_state = Some t ->
  stored chat user t ≠ Some EmptyString ->
  PGStorage.get_state chat user default st =
  SQLiteStorage.get_state chat user default st.
Proof.
  intros Ht Hne.
  rewrite (pg_get_state_run st chat user default t Ht),
    (get_state_run st chat user default t Ht).
  destruct (stored chat user t) as [text|]; [|done].
  destruct (String.eqb_spec text EmptyString) as [->|]; done.
Qed.

Lemma get_data_agree (chat user : Z) (default : value) (t : table) :
  opened st !! aiogram_data = Some t ->
  stored chat user t ≠ Some EmptyString ->
  PGStorage.get_data chat user default st =
  SQLiteStorage.get_data chat user default st.
Proof.
  intros Ht Hne.
  rewrite (pg_get_data_run chat user default t Ht),
    (get_data_run st chat user default t Ht).
  destruct (stored chat user t) as [text|]; [|done].
  destruct (String.eqb_spec text EmptyString) as [->|]; done.
Qed.

Lemma get_bucket_agree (chat user : Z) (default : value) (t : table) :
  opened st !! aiogram_bucket = Some t ->
  stored chat user t ≠ Some EmptyString ->
  PGStorage.get_bucket chat user default st =
  SQLiteStorage.get_bucket chat user default st.
Proof.
  intros Ht Hne.
  rewrite (pg_get_bucket_run chat user default t Ht),
    (get_bucket_run st chat user default t Ht).
  destruct (stored chat user t) as [text|]; [|done].
  destruct (String.eqb_spec text EmptyString) as [->|]; done.
Qed.

Lemma update_data_agree (chat user : Z) (data : option dict)
    (kwargs : dict) (t : table) :
  opened st !! aiogram_data = Some t ->
  stored chat user t ≠ Some EmptyString ->
  PGStorage.update_data chat user data kwargs st =
  SQLiteStorage.update_data chat user data kwargs st.
Proof.
  intros Ht Hne. unfold PGStorage.update_data, SQLiteStorage.update_data.
  unfold bind at 1 3. rewrite (get_data_agree _ _ _ t Ht Hne).
  destruct (SQLiteStorage.get_data _ _ _ _) as [[temp|e] st']; [|done].
  unfold bind.
  destruct (update_method temp _ kwargs st') as [[merged|e] st'']; [|done].
  apply set_data_agree.
Qed.

Lemma update_bucket_agree (chat user : Z) (bucket : option dict)
    (kwargs : dict) (t : table) :
  opened st !! aiogram_bucket = Some t ->
  stored chat user t ≠ Some EmptyString ->
  PGStorage.update_bucket chat user bucket kwargs st =
  SQLiteStorage.update_bucket chat user bucket kwargs st.
Proof.
  intros Ht Hne. unfold PGStorage.update_bucket, SQLiteStorage.update_bucket.
  unfold bind at 1 3. rewrite (get_bucket_agree _ _ _ t Ht Hne).
  destruct (SQLiteStorage.get_bucket _ _ _ _) as [[temp|e] st']; [|done].
  unfold bind.
  destruct (update_method temp _ kwargs st') as [[merged|e] st'']; [|done].
  apply set_bucket_agree.
Qed.

End Agreement.

(** C1.  The two classes differ on [get_state] when the stored state is
    the empty string: after [set_state(chat=1, user=100, state='')] the
    SQLite class returns the stored [''], and the Postgres class, which
    tests the fetched value instead of the fetched row, returns the
    default. *)
Theorem get_state_differs_on_empty_state :
  let st := (init ∅) in
  let st' :=
    connected (<[aiogram_state := {[100 := (1, EmptyString)]}]> (opened st)) in
  (let* _ := SQLiteStorage.set_state 1 100 (Some EmptyString) in
   SQLiteStorage.get_state 1 100 (Some "idle"%string)) st =
    (Ok (Some EmptyString), st') /\
  (let* _ := PGStorage.set_state 1 100 (Some EmptyString) in
   PGStorage.get_state 1 100 (Some "idle"%string)) st =
    (Ok (Some "idle"%string), st').
Proof. split; by vm_compute. Qed.

(** C3.  [set_bucket] upserts whatever the bucket is, also [None] and the
    empty mapping: afterwards the user has a bucket row that holds the
    encoded bucket, and every row that was there is still there.
    [set_data] with a false value ([None], the empty mapping) deletes the
    data row of the key and touches no other user.  Both classes. *)
Theorem set_bucket_always_upserts `{Serializer}
    (st : storage) (tb td : table) (chat user : Z) (bucket data : value) :
  opened st !! aiogram_bucket = Some tb ->
  opened st !! aiogram_data = Some td ->
  truthy data = false ->
  (exists tb' : table,
      SQLiteStorage.set_bucket chat user bucket st =
        (Ok tt, connected (<[aiogram_bucket := tb']> (opened st))) /\
      PGStorage.set_bucket chat user bucket st =
        (Ok tt, connected (<[aiogram_bucket := tb']> (opened st))) /\
      (exists c, tb' !! user = Some (c, encode bucket)) /\
      (forall u, u ≠ user -> tb' !! u = tb !! u) /\
      (forall u, is_Some (tb !! u) -> is_Some (tb' !! u))) /\
  (exists td' : table,
      SQLiteStorage.set_data chat user data st =
        (Ok tt, connected (<[aiogram_data := td']> (opened st))) /\
      PGStorage.set_data chat user data st =
        (Ok tt, connected (<[aiogram_data := td']> (opened st))) /\
      stored chat user td' = None /\
      (forall text, td !! user = Some (chat, text) -> td' !! user = None) /\
      (forall u, u ≠ user -> td' !! u = td !! u)).
Proof.
  intros Hb Hd Hfalse. split.
  - exists (SQL.upsert user chat (encode bucket) tb).
    rewrite set_bucket_agree, (set_bucket_run st chat user bucket tb Hb).
    split_and!; [done|done| | |].
    + rewrite upsert_lookup_eq. eauto.
    + intros u Hne. by apply upsert_lookup_ne.
    + intros u Hu. destruct (decide (u = user)) as [->|Hne].
      * rewrite upsert_lookup_eq. eauto.
      * by rewrite upsert_lookup_ne.
  - exists (SQL.remaining chat user td).
    rewrite set_data_agree, (set_data_run st chat user data td Hd), Hfalse.
    split_and!; [done|done| | |].
    + unfold stored. rewrite remaining_lookup, decide_True by done.
      destruct (td !! user) as [[c text]|]; [|done].
      destruct (decide (c = chat)); [done|]. by rewrite decide_False.
    + intros text Hrow.
      rewrite remaining_lookup, decide_True, Hrow by done.
      by rewrite decide_True.
    + intros u Hne. by rewrite remaining_lookup, decide_False.
Qed.

(** On the sample database, with the empty mapping as bucket and as
    data. *)
Lemma set_bucket_always_upserts_witness :
  (exists tb' : table,
      SQLiteStorage.set_bucket (H := Json.serializer) 1 100 (VDict [])
        (connected sample_db) =
        (Ok tt, connected (<[aiogram_bucket := tb']>
                             (opened (connected sample_db)))) /\
      PGStorage.set_bucket (H := Json.serializer) 1 100 (VDict [])
        (connected sample_db) =
        (Ok tt, connected (<[aiogram_bucket := tb']>
                             (opened (connected sample_db)))) /\
      (exists c, tb' !! 100 = Some (c, Json.dumps (VDict []))) /\
      (forall u, u ≠ 100 -> tb' !! u = (∅ : table) !! u) /\
      (forall u, is_Some ((∅ : table) !! u) -> is_Some (tb' !! u))) /\
  (exists td' : table,
      SQLiteStorage.set_data (H := Json.serializer) 1 100 (VDict [])
        (connected sample_db) =
        (Ok tt, connected (<[aiogram_data := td']>
                             (opened (connected sample_db)))) /\
      PGStorage.set_data (H := Json.serializer) 1 100 (VDict [])
        (connected sample_db) =
        (Ok tt, connected (<[aiogram_data := td']>
                             (opened (connected sample_db)))) /\
      stored 1 100 td' = None /\
      (forall text, sample_data !! 100 = Some (1, text) -> td' !! 100 = None) /\
      (forall u, u ≠ 100 -> td' !! u = sample_data !! u)).
Proof.
  apply (set_bucket_always_upserts (H := Json.serializer)
           (connected sample_db) ∅ sample_data 1 100 (VDict []) (VDict []));
    reflexivity.
Defined.



(** C8, as the claim has it, fails on a user whose data row holds another
    chat: [set_data] for (2, 100) changes the data column of the row
    (100, 1, ...) and leaves its chat, so [get_data] for (2, 100) finds no
    row and returns the empty mapping, although the serializer returns the
    stored mapping unchanged.  It fails as well on the empty mapping when
    [get_data] is given a default: [set_data] deletes the row, and
    [get_data] returns the default. *)
Lemma set_data_get_data_not_stored_mapping :
  decode (Serializer := Json.serializer)
    (encode (Serializer := Json.serializer) (VDict [("b"%string, VInt 2)])) =
    Some (VDict [("b"%string, VInt 2)]) /\
  (let* _ := SQLiteStorage.set_data (H := Json.serializer) 2 100
               (VDict [("b"%string, VInt 2)]) in
   SQLiteStorage.get_data (H := Json.serializer) 2 100 VNone)
    (connected sample_db) =
    (Ok (VDict []),
     connected (<[aiogram_data :=
                    {[100 := (1, Json.dumps (VDict [("b"%string, VInt 2)]))]}]>
                  sample_db)) /\
  decode (Serializer := Json.serializer)
    (encode (Serializer := Json.serializer) (VDict [])) = Some (VDict []) /\
  (let* _ := SQLiteStorage.set_data (H := Json.serializer) 1 100 (VDict []) in
   SQLiteStorage.get_data (H := Json.serializer) 1 100
     (VDict [("d"%string, VInt 1)]))
    (connected sample_db) =
    (Ok (VDict [("d"%string, VInt 1)]),
     connected (<[aiogram_data := (∅ : table)]> sample_db)).
Proof. split_and!; by vm_compute. Qed.

(** C8, amended.  For every mapping, the values of which are nested
    structures of dictionaries, lists, strings, integers, floats, booleans
    and [None], that the serializer of the storage returns unchanged:
    when the user has no data row under another chat and, for the empty
    mapping, the default of [get_data] is omitted or false, [set_data]
    followed by [get_data] on the same key returns the mapping.  Both
    classes; the Postgres class reads a stored text that is not empty. *)
Theorem set_data_get_data_round_trip `{Serializer}
    (st : storage) (td : table) (chat user : Z) (m : dict)
    (default : value) :
  opened st !! aiogram_data = Some td ->
  decode (encode (VDict m)) = Some (VDict m) ->
  (forall c text, td !! user = Some (c, text) -> c = chat) ->
  (m = [] -> truthy default = false) ->
  let st' :=
    connected (<[aiogram_data :=
                   match m with
                   | [] => delete user td
                   | _ :: _ => <[user := (chat, encode (VDict m))]> td
                   end]> (opened st)) in
  SQLiteStorage.set_data chat user (VDict m) st = (Ok tt, st') /\
  SQLiteStorage.get_data chat user default st' = (Ok (VDict m), st') /\
  PGStorage.set_data chat user (VDict m) st = (Ok tt, st') /\
  (m = [] \/ encode (VDict m) ≠ EmptyString ->
   PGStorage.get_data chat user default st' = (Ok (VDict m), st')).
Proof.
  intros Hd Hround Hchat Hdefault st'.
  assert (Hup : SQL.upsert user chat (encode (VDict m)) td =
                <[user := (chat, encode (VDict m))]> td).
  { unfold SQL.upsert. destruct (td !! user) as [[c text]|] eqn:Hrow; [|done].
    by rewrite (Hchat c text eq_refl). }
  assert (Hdel : SQL.remaining chat user td = delete user td).
  { apply map_eq; intros u. rewrite remaining_lookup.
    destruct (decide (u = user)) as [->|Hne].
    - rewrite lookup_delete_eq.
      destruct (td !! user) as [[c text]|] eqn:Hrow; [|done].
      by rewrite (Hchat c text eq_refl), decide_True.
    - by rewrite lookup_delete_ne. }
  assert (Hset : SQLiteStorage.set_data chat user (VDict m) st = (Ok tt, st')).
  { rewrite (set_data_run st chat user (VDict m) td Hd). unfold st'.
    destruct m; simpl; by rewrite ?Hup, ?Hdel. }
  set (td' := match m with
              | [] => delete user td
              | _ :: _ => <[user := (chat, encode (VDict m))]> td
              end).
  assert (Hd' : opened st' !! aiogram_data = Some td').
  { unfold st'. by rewrite opened_connected, lookup_insert_eq. }
  assert (Hstored : stored chat user td' =
                    match m with
                    | [] => None
                    | _ :: _ => Some (encode (VDict m))
                    end).
  { unfold stored, td'. destruct m.
    - by rewrite lookup_delete_eq.
    - by rewrite lookup_insert_eq, decide_True. }
  split_and!.
  - exact Hset.
  - rewrite (get_data_run st' chat user default td' Hd'), Hstored.
    destruct m.
    + unfold py_or. by rewrite (Hdefault eq_refl).
    + by rewrite Hround.
  - by rewrite set_data_agree.
  - intros Htext.
    rewrite (pg_get_data_run st' chat user default td' Hd'), Hstored.
    destruct m.
    + unfold py_or. by rewrite (Hdefault eq_refl).
    + destruct Htext as [|Htext]; [done|].
      destruct (String.eqb_spec (encode (VDict (p :: m))) EmptyString);
        [done|].
      by rewrite Hround.
Qed.

(** On the sample database, for the key (1, 100) and the mapping
    {"b": 3, "c": 1.5}, with the JSON serializer. *)
Lemma set_data_get_data_round_trip_witness :
  let m : dict := [("b"%string, VInt 3); ("c"%string, VFloat false 15 (-1))] in
  let st' :=
    connected (<[aiogram_data :=
                   <[100 := (1, Json.dumps (VDict m))]> sample_data]>
                 (opened (connected sample_db))) in
  SQLiteStorage.set_data (H := Json.serializer) 1 100 (VDict m)
    (connected sample_db) = (Ok tt, st') /\
  SQLiteStorage.get_data (H := Json.serializer) 1 100 VNone st' =
    (Ok (VDict m), st') /\
  PGStorage.set_data (H := Json.serializer) 1 100 (VDict m)
    (connected sample_db) = (Ok tt, st') /\
  PGStorage.get_data (H := Json.serializer) 1 100 VNone st' =
    (Ok (VDict m), st').
Proof.
  destruct (set_data_get_data_round_trip (H := Json.serializer)
              (connected sample_db) sample_data 1 100
              [("b"%string, VInt 3); ("c"%string, VFloat false 15 (-1))]
              VNone)
    as (Hset & Hget & Hpg_set & Hpg_get);
    [reflexivity | reflexivity | | discriminate |].
  - intros c text Hrow. vm_compute in Hrow. congruence.
  - split_and!; [exact Hset | exact Hget | exact Hpg_set |].
    apply Hpg_get. right. intros Htext. vm_compute in Htext. discriminate.
Defined.

(** C10, as the claim has it, fails on a user whose bucket row holds
    another chat: [set_bucket(chat=2, user=100, bucket=None)] changes the
    bucket column of the row (100, 1, ...), and [get_bucket] for (2, 100)
    finds no row and returns the default. *)
Lemma set_bucket_none_other_chat :
  let default := VDict [("d"%string, VInt 1)] in
  (let* _ := SQLiteStorage.set_bucket (H := Json.serializer) 1 100
               (VDict [("k"%string, VInt 1)]) in
   let* _ := SQLiteStorage.set_bucket (H := Json.serializer) 2 100 VNone in
   SQLiteStorage.get_bucket (H := Json.serializer) 2 100 default)
    (init ∅) =
    (Ok default,
     connected (<[aiogram_bucket := {[100 := (1, Json.dumps VNone)]}]>
                  (opened (init ∅)))).
Proof. by vm_compute. Qed.

(** C10, amended.  [set_bucket] with [None] stores the encoding of [None]
    in the bucket row of the user; when the serializer reads that text
    back as [None] and the user has no bucket row under another chat,
    [get_bucket] on the same key returns [None], not a mapping and not the
    default. *)
Theorem set_bucket_none_round_trip `{Serializer}
    (st : storage) (tb : table) (chat user : Z) (default : value) :
  opened st !! aiogram_bucket = Some tb ->
  decode (encode VNone) = Some VNone ->
  (forall c text, tb !! user = Some (c, text) -> c = chat) ->
  let st' :=
    connected (<[aiogram_bucket := <[user := (chat, encode VNone)]> tb]>
                 (opened st)) in
  SQLiteStorage.set_bucket chat user VNone st = (Ok tt, st') /\
  stored chat user (<[user := (chat, encode VNone)]> tb) =
    Some (encode VNone) /\
  SQLiteStorage.get_bucket chat user default st' = (Ok VNone, st').
Proof.
  intros Hb Hround Hchat st'.
  assert (Hup : SQL.upsert user chat (encode VNone) tb =
                <[user := (chat, encode VNone)]> tb).
  { unfold SQL.upsert. destruct (tb !! user) as [[c text]|] eqn:Hrow; [|done].
    by rewrite (Hchat c text eq_refl). }
  assert (Hst : stored chat user (<[user := (chat, encode VNone)]> tb) =
                Some (encode VNone)).
  { unfold stored. by rewrite lookup_insert_eq, decide_True. }
  split_and!; [|done|].
  - rewrite (set_bucket_run st chat user VNone tb Hb). by rewrite Hup.
  - rewrite (get_bucket_run st' chat user default
               (<[user := (chat, encode VNone)]> tb)).
    + by rewrite Hst, Hround.
    + unfold st'. by rewrite opened_connected, lookup_insert_eq.
Qed.

(** On the sample database, where user 100 has no bucket, with the JSON
    serializer. *)
Lemma set_bucket_none_round_trip_witness :
  let default := VDict [("d"%string, VInt 1)] in
  let st' :=
    connected (<[aiogram_bucket := <[100 := (1, Json.dumps VNone)]> ∅]>
                 (opened (connected sample_db))) in
  SQLiteStorage.set_bucket (H := Json.serializer) 1 100 VNone
    (connected sample_db) = (Ok tt, st') /\
  stored 1 100 (<[100 := (1, Json.dumps VNone)]> ∅) =
    Some (Json.dumps VNone) /\
  SQLiteStorage.get_bucket (H := Json.serializer) 1 100 default st' =
    (Ok VNone, st').
Proof.
  apply (set_bucket_none_round_trip (H := Json.serializer)
           (connected sample_db) ∅ 1 100 (VDict [("d"%string, VInt 1)]));
    [reflexivity | reflexivity |].
  intros c text Hrow. by rewrite lookup_empty in Hrow.
Defined.

(** * Further properties of the storages *)

(** X1.  When [get_db] returns, the storage is connected.  Every table
    that existed is kept with its rows; on a storage without a connection
    the missing ones of the three tables are created empty; on a connected
    storage nothing changes, and a second call returns the connection
    without effect. *)
Theorem get_db_creates_only_missing_tables (st st' : storage) :
  get_db st = (Ok tt, st') ->
  _db st' = true /\
  (forall name t, backend st !! name = Some t ->
                  backend st' !! name = Some t) /\
  (_db st = false ->
   forall name, name ∈ [aiogram_state; aiogram_data; aiogram_bucket] ->
     backend st' !! name = Some (default ∅ (backend st !! name))) /\
  (forall name, name ∉ [aiogram_state; aiogram_data; aiogram_bucket] ->
                backend st' !! name = backend st !! name) /\
  (_db st = true -> st' = st) /\
  get_db st' = (Ok tt, st').
Proof.
  rewrite get_db_run. intros [= <-].
  destruct st as [[] db]; simpl.
  - by split_and!.
  - unfold opened; simpl. split_and!; try done.
    + intros name t Hname. rewrite !create_missing_lookup.
      repeat case_decide; subst; by rewrite ?Hname.
    + intros _ name Hname. by apply opened_closed_lookup.
    + intros name Hname. rewrite !create_missing_lookup.
      repeat case_decide; subst; try done; exfalso; apply Hname;
        set_unfold; tauto.
Qed.

(** On a new storage over the sample database without its bucket
    table. *)
Lemma get_db_creates_only_missing_tables_witness :
  let st := init (delete aiogram_bucket sample_db) in
  let st' := connected sample_db in
  _db st' = true /\
  (forall name t, backend st !! name = Some t ->
                  backend st' !! name = Some t) /\
  (_db st = false ->
   forall name, name ∈ [aiogram_state; aiogram_data; aiogram_bucket] ->
     backend st' !! name = Some (default ∅ (backend st !! name))) /\
  (forall name, name ∉ [aiogram_state; aiogram_data; aiogram_bucket] ->
                backend st' !! name = backend st !! name) /\
  (_db st = true -> st' = st) /\
  get_db st' = (Ok tt, st').
Proof.
  apply (get_db_creates_only_missing_tables
           (init (delete aiogram_bucket sample_db)) (connected sample_db)).
  by vm_compute.
Defined.

(** X2.  After [reset_all(full=False)] the same storage object keeps its
    connection and finds no state table: [get_state] and
    [get_states_list] raise the driver's error and change nothing, and
    [set_state] raises the driver's error and writes no row, in both
    classes. *)
Theorem state_methods_raise_after_reset_all
    (st : storage) (ts : table) (chat user : Z)
    (state default : option string) :
  opened st !! aiogram_state = Some ts ->
  exists st1 : storage,
    SQLiteStorage.reset_all false st = (Ok tt, st1) /\
    PGStorage.reset_all false st = (Ok tt, st1) /\
    (SQLiteStorage.set_state chat user state st1).1 =
      Raise (OperationalError aiogram_state) /\
    (PGStorage.set_state chat user state st1).1 =
      Raise (OperationalError aiogram_state) /\
    backend (SQLiteStorage.set_state chat user state st1).2 = backend st1 /\
    backend (PGStorage.set_state chat user state st1).2 = backend st1 /\
    SQLiteStorage.get_state chat user default st1 =
      (Raise (OperationalError aiogram_state), st1) /\
    PGStorage.get_state chat user default st1 =
      (Raise (OperationalError aiogram_state), st1) /\
    SQLiteStorage.get_states_list st1 =
      (Raise (OperationalError aiogram_state), st1) /\
    PGStorage.get_states_list st1 =
      (Raise (OperationalError aiogram_state), st1).
Proof.
  intros Hs. exists (connected (delete aiogram_state (opened st))).
  assert (Hgone :
    opened (connected (delete aiogram_state (opened st))) !! aiogram_state
      = None) by by rewrite opened_connected, lookup_delete_eq.
  rewrite reset_all_agree, reset_all_run, Hs. simpl.
  rewrite !set_state_agree.
  change PGStorage.get_states_list with SQLiteStorage.get_states_list.
  rewrite (set_state_missing chat user state _ Hgone).
  destruct (get_state_missing chat user default _ Hgone) as [-> ->].
  rewrite (get_states_list_missing _ Hgone).
  by split_and!.
Qed.

(** On the sample database. *)
Lemma state_methods_raise_after_reset_all_witness :
  exists st1 : storage,
    SQLiteStorage.reset_all false (connected sample_db) = (Ok tt, st1) /\
    PGStorage.reset_all false (connected sample_db) = (Ok tt, st1) /\
    (SQLiteStorage.set_state 1 100 (Some "menu"%string) st1).1 =
      Raise (OperationalError aiogram_state) /\
    (PGStorage.set_state 1 100 (Some "menu"%string) st1).1 =
      Raise (OperationalError aiogram_state) /\
    backend (SQLiteStorage.set_state 1 100 (Some "menu"%string) st1).2 =
      backend st1 /\
    backend (PGStorage.set_state 1 100 (Some "menu"%string) st1).2 =
      backend st1 /\
    SQLiteStorage.get_state 1 100 None st1 =
      (Raise (OperationalError aiogram_state), st1) /\
    PGStorage.get_state 1 100 None st1 =
      (Raise (OperationalError aiogram_state), st1) /\
    SQLiteStorage.get_states_list st1 =
      (Raise (OperationalError aiogram_state), st1) /\
    PGStorage.get_states_list st1 =
      (Raise (OperationalError aiogram_state), st1).
Proof.
  apply (state_methods_raise_after_reset_all
           (connected sample_db) sample_state 1 100
           (Some "menu"%string) None).
  reflexivity.
Defined.

(** ** Writing and reading one key *)

Lemma upsert_fresh (user chat : Z) (text : string) (t : table) :
  (forall c old, t !! user = Some (c, old) -> c = chat) ->
  SQL.upsert user chat text t = <[user := (chat, text)]> t.
Proof.
  intros Hchat. unfold SQL.upsert.
  destruct (t !! user) as [[c old]|] eqn:Hrow; [|done].
  by rewrite (Hchat c old eq_refl).
Qed.

Lemma upsert_upsert (user chat : Z) (text1 text2 : string) (t : table) :
  SQL.upsert user chat text2 (SQL.upsert user chat text1 t) =
  SQL.upsert user chat text2 t.
Proof.
  unfold SQL.upsert at 1. rewrite upsert_lookup_eq. unfold SQL.upsert.
  destruct (t !! user) as [[c old]|]; by rewrite insert_insert_eq.
Qed.

Lemma upsert_remaining (user chat : Z) (text : string) (t : table) :
  SQL.upsert user chat text (SQL.remaining chat user t) =
  SQL.upsert user chat text t.
Proof.
  rewrite remaining_spec. unfold stored, SQL.upsert.
  destruct (t !! user) as [[c old]|] eqn:Hrow; [|by rewrite Hrow].
  destruct (decide (c = chat)) as [->|Hc].
  - by rewrite lookup_delete_eq, insert_delete_eq.
  - by rewrite Hrow.
Qed.

Lemma stored_remaining (chat user : Z) (t : table) :
  stored chat user (SQL.remaining chat user t) = None.
Proof.
  unfold stored. rewrite remaining_lookup, decide_True by done.
  destruct (t !! user) as [[c text]|]; [|done].
  destruct (decide (c = chat)); [done|]. by rewrite decide_False.
Qed.

(** X3.  [set_state] with a state followed by [get_state] on the same key
    returns that state, when chat and user are integers that the key
    columns hold and the user has no state row under another chat; the
    Postgres class does so for every state without a NUL character but the
    empty string, which it stores and reads as no state. *)
Theorem set_state_then_get_state
    (st : storage) (t : table) (chat user : Z) (s : string)
    (default : option string) :
  opened st !! aiogram_state = Some t ->
  bigint chat ->
  bigint user ->
  (forall c old, t !! user = Some (c, old) -> c = chat) ->
  let st' :=
    connected (<[aiogram_state := <[user := (chat, s)]> t]> (opened st)) in
  SQLiteStorage.set_state chat user (Some s) st = (Ok tt, st') /\
  SQLiteStorage.get_state chat user default st' = (Ok (Some s), st') /\
  (contains_nul s = false ->
   PGStorage.set_state chat user (Some s) st = (Ok tt, st') /\
   (s ≠ EmptyString ->
    PGStorage.get_state chat user default st' = (Ok (Some s), st'))).
Proof.
  intros Ht _ _ Hchat st'.
  assert (Hset : SQLiteStorage.set_state chat user (Some s) st = (Ok tt, st')).
  { rewrite (set_state_run st chat user (Some s) t Ht).
    by rewrite upsert_fresh. }
  assert (Ht' : opened st' !! aiogram_state = Some (<[user := (chat, s)]> t)).
  { unfold st'. by rewrite opened_connected, lookup_insert_eq. }
  assert (Hrow : stored chat user (<[user := (chat, s)]> t) = Some s).
  { unfold stored. by rewrite lookup_insert_eq, decide_True. }
  split_and!.
  - done.
  - rewrite (get_state_run st' chat user default _ Ht'). by rewrite Hrow.
  - intros _. split; [by rewrite set_state_agree|].
    intros Hs. rewrite (pg_get_state_run st' chat user default _ Ht'), Hrow.
    by destruct (String.eqb_spec s EmptyString).
Qed.

(** For user 200, who is new to the sample database. *)
Lemma set_state_then_get_state_witness :
  let st' :=
    connected (<[aiogram_state := <[200 := (2, "form"%string)]> sample_state]>
                 (opened (connected sample_db))) in
  SQLiteStorage.set_state 2 200 (Some "form"%string) (connected sample_db) =
    (Ok tt, st') /\
  SQLiteStorage.get_state 2 200 None st' = (Ok (Some "form"%string), st') /\
  PGStorage.set_state 2 200 (Some "form"%string) (connected sample_db) =
    (Ok tt, st') /\
  PGStorage.get_state 2 200 None st' = (Ok (Some "form"%string), st').
Proof.
  destruct (set_state_then_get_state (connected sample_db) sample_state
              2 200 "form" None) as (Hset & Hget & Hpg);
    [reflexivity | unfold bigint; lia | unfold bigint; lia | |].
  - intros c old Hrow. vm_compute in Hrow. congruence.
  - destruct (Hpg eq_refl) as [Hpg_set Hpg_get].
    split_and!; [exact Hset | exact Hget | exact Hpg_set |].
    by apply Hpg_get.
Defined.

(** X4.  A [set_state] with a state makes an earlier [set_state] on the
    same key without effect on the rows, whatever that one set or deleted:
    the two calls leave the rows that the last call alone leaves, the
    order of the rows aside, which the database of rows per user does not
    record.  The keys are integers that the key columns hold; the Postgres
    class does so for states without a NUL character.  In the SQLite
    class a [set_bucket] does the same to an earlier [set_bucket]. *)
Theorem last_write_wins `{Serializer}
    (st : storage) (chat user : Z) (earlier : option string) (s : string)
    (bucket1 bucket2 : value) :
  bigint chat ->
  bigint user ->
  (let* _ := SQLiteStorage.set_state chat user earlier in
   SQLiteStorage.set_state chat user (Some s)) st =
    SQLiteStorage.set_state chat user (Some s) st /\
  (from_option (fun s0 => contains_nul s0 = false) True earlier ->
   contains_nul s = false ->
   (let* _ := PGStorage.set_state chat user earlier in
    PGStorage.set_state chat user (Some s)) st =
     PGStorage.set_state chat user (Some s) st) /\
  (let* _ := SQLiteStorage.set_bucket chat user bucket1 in
   SQLiteStorage.set_bucket chat user bucket2) st =
    SQLiteStorage.set_bucket chat user bucket2 st.
Proof.
  intros _ _.
  assert (Hstate :
    (let* _ := SQLiteStorage.set_state chat user earlier in
     SQLiteStorage.set_state chat user (Some s)) st =
      SQLiteStorage.set_state chat user (Some s) st).
  { unfold bind. destruct (opened st !! aiogram_state) as [t|] eqn:Ht.
    - rewrite (set_state_run st chat user earlier t Ht).
      rewrite (set_state_run st chat user (Some s) t Ht).
      erewrite set_state_run;
        [|by rewrite opened_connected, lookup_insert_eq].
      rewrite opened_connected, insert_insert_eq.
      destruct earlier; by rewrite ?upsert_upsert, ?upsert_remaining.
    - by rewrite !set_state_missing. }
  assert (Hbucket :
    (let* _ := SQLiteStorage.set_bucket chat user bucket1 in
     SQLiteStorage.set_bucket chat user bucket2) st =
      SQLiteStorage.set_bucket chat user bucket2 st).
  { unfold bind. destruct (opened st !! aiogram_bucket) as [t|] eqn:Ht.
    - rewrite (set_bucket_run st chat user bucket1 t Ht).
      rewrite (set_bucket_run st chat user bucket2 t Ht).
      erewrite set_bucket_run;
        [|by rewrite opened_connected, lookup_insert_eq].
      by rewrite opened_connected, insert_insert_eq, upsert_upsert.
    - by rewrite !set_bucket_missing. }
  split_and!; [done| |done].
  intros _ _. unfold bind in *. rewrite (set_state_agree chat user earlier).
  destruct (SQLiteStorage.set_state chat user earlier st) as [[[]|e] st1];
    by rewrite !set_state_agree.
Qed.

(** On the sample database, for the key that holds the state [menu]: a
    deleted state and then the state [form]. *)
Lemma last_write_wins_witness :
  let st' :=
    connected (<[aiogram_state := {[100 := (1, "form"%string)]}]> sample_db) in
  (let* _ := SQLiteStorage.set_state 1 100 None in
   SQLiteStorage.set_state 1 100 (Some "form"%string)) (connected sample_db) =
    SQLiteStorage.set_state 1 100 (Some "form"%string) (connected sample_db) /\
  (let* _ := PGStorage.set_state 1 100 None in
   PGStorage.set_state 1 100 (Some "form"%string)) (connected sample_db) =
    PGStorage.set_state 1 100 (Some "form"%string) (connected sample_db) /\
  (let* _ := SQLiteStorage.set_bucket (H := Json.serializer) 1 100 VNone in
   SQLiteStorage.set_bucket (H := Json.serializer) 1 100 (VDict []))
    (connected sample_db) =
    SQLiteStorage.set_bucket (H := Json.serializer) 1 100 (VDict [])
      (connected sample_db) /\
  SQLiteStorage.set_state 1 100 (Some "form"%string) (connected sample_db) =
    (Ok tt, st').
Proof.
  destruct (last_write_wins (H := Json.serializer) (connected sample_db)
              1 100 None "form" VNone (VDict []))
    as (Hstate & Hpg & Hbucket); [unfold bigint; lia | unfold bigint; lia |].
  split_and!; [exact Hstate | by apply Hpg | exact Hbucket | by vm_compute].
Defined.

(** X5.  [set_state] with a null state followed by [get_state] on the
    same key returns the default, in both classes and whatever the table
    held. *)
Theorem set_state_none_then_get_state
    (st : storage) (t : table) (chat user : Z) (default : option string) :
  opened st !! aiogram_state = Some t ->
  exists st' : storage,
    SQLiteStorage.set_state chat user None st = (Ok tt, st') /\
    SQLiteStorage.get_state chat user default st' = (Ok default, st') /\
    PGStorage.set_state chat user None st = (Ok tt, st') /\
    PGStorage.get_state chat user default st' = (Ok default, st').
Proof.
  intros Ht. eexists. rewrite set_state_agree.
  rewrite (set_state_run st chat user None t Ht).
  split_and!; [done| |done|].
  - erewrite get_state_run;
      [|by rewrite opened_connected, lookup_insert_eq].
    by rewrite stored_remaining.
  - erewrite pg_get_state_run;
      [|by rewrite opened_connected, lookup_insert_eq].
    by rewrite stored_remaining.
Qed.

(** On the sample database, for the key that holds the state. *)
Lemma set_state_none_then_get_state_witness :
  exists st' : storage,
    SQLiteStorage.set_state 1 100 None (connected sample_db) = (Ok tt, st') /\
    SQLiteStorage.get_state 1 100 (Some "idle"%string) st' =
      (Ok (Some "idle"%string), st') /\
    PGStorage.set_state 1 100 None (connected sample_db) = (Ok tt, st') /\
    PGStorage.get_state 1 100 (Some "idle"%string) st' =
      (Ok (Some "idle"%string), st').
Proof.
  apply (set_state_none_then_get_state (connected sample_db) sample_state
           1 100 (Some "idle"%string)).
  reflexivity.
Defined.

(** ** Data and buckets *)

(** X6.  [set_data] with a false value ([None], the empty mapping)
    followed by [get_data] on the same key returns the default when the
    default is a mapping with items and the empty mapping otherwise, never
    [None]; both classes, whatever the table held. *)
Theorem set_data_empty_then_get_data `{Serializer}
    (st : storage) (t : table) (chat user : Z) (data default : value) :
  opened st !! aiogram_data = Some t ->
  truthy data = false ->
  exists st' : storage,
    SQLiteStorage.set_data chat user data st = (Ok tt, st') /\
    SQLiteStorage.get_data chat user default st' =
      (Ok (if truthy default then default else VDict []), st') /\
    PGStorage.set_data chat user data st = (Ok tt, st') /\
    PGStorage.get_data chat user default st' =
      (Ok (if truthy default then default else VDict []), st').
Proof.
  intros Ht Hfalse. eexists. rewrite set_data_agree.
  rewrite (set_data_run st chat user data t Ht), Hfalse.
  split_and!; [done| |done|].
  - erewrite get_data_run;
      [|by rewrite opened_connected, lookup_insert_eq].
    by rewrite stored_remaining.
  - erewrite pg_get_data_run;
      [|by rewrite opened_connected, lookup_insert_eq].
    by rewrite stored_remaining.
Qed.

(** On the sample database, where the key holds a mapping. *)
Lemma set_data_empty_then_get_data_witness :
  exists st' : storage,
    SQLiteStorage.set_data (H := Json.serializer) 1 100 (VDict [])
      (connected sample_db) = (Ok tt, st') /\
    SQLiteStorage.get_data (H := Json.serializer) 1 100 VNone st' =
      (Ok (if truthy VNone then VNone else VDict []), st') /\
    PGStorage.set_data (H := Json.serializer) 1 100 (VDict [])
      (connected sample_db) = (Ok tt, st') /\
    PGStorage.get_data (H := Json.serializer) 1 100 VNone st' =
      (Ok (if truthy VNone then VNone else VDict []), st').
Proof.
  apply (set_data_empty_then_get_data (H := Json.serializer)
           (connected sample_db) sample_data 1 100 (VDict []) VNone);
    reflexivity.
Defined.

(** X7.  [set_bucket] followed by [get_bucket] on the same key returns
    the bucket that was set, for every value that the serializer returns
    unchanged, when the user has no bucket row under another chat.  An
    empty mapping is stored like any other: it is returned in place of the
    default, where [get_data] after [set_data] returns the default. *)
Theorem set_bucket_then_get_bucket `{Serializer}
    (st : storage) (tb : table) (chat user : Z) (bucket default : value) :
  opened st !! aiogram_bucket = Some tb ->
  decode (encode bucket) = Some bucket ->
  (forall c old, tb !! user = Some (c, old) -> c = chat) ->
  let st' :=
    connected (<[aiogram_bucket := <[user := (chat, encode bucket)]> tb]>
                 (opened st)) in
  SQLiteStorage.set_bucket chat user bucket st = (Ok tt, st') /\
  SQLiteStorage.get_bucket chat user default st' = (Ok bucket, st') /\
  PGStorage.set_bucket chat user bucket st = (Ok tt, st') /\
  (encode bucket ≠ EmptyString ->
   PGStorage.get_bucket chat user default st' = (Ok bucket, st')).
Proof.
  intros Hb Hround Hchat st'.
  assert (Hset : SQLiteStorage.set_bucket chat user bucket st = (Ok tt, st')).
  { rewrite (set_bucket_run st chat user bucket tb Hb).
    by rewrite upsert_fresh. }
  assert (Hb' : opened st' !! aiogram_bucket =
                Some (<[user := (chat, encode bucket)]> tb)).
  { unfold st'. by rewrite opened_connected, lookup_insert_eq. }
  assert (Hrow : stored chat user (<[user := (chat, encode bucket)]> tb) =
                 Some (encode bucket)).
  { unfold stored. by rewrite lookup_insert_eq, decide_True. }
  split_and!.
  - done.
  - rewrite (get_bucket_run st' chat user default _ Hb').
    by rewrite Hrow, Hround.
  - by rewrite set_bucket_agree.
  - intros Hne. rewrite (pg_get_bucket_run st' chat user default _ Hb'), Hrow.
    destruct (String.eqb_spec (encode bucket) EmptyString); [done|].
    by rewrite Hround.
Qed.

(** On the sample database, with the empty mapping as bucket and a
    default with an item. *)
Lemma set_bucket_then_get_bucket_witness :
  let default := VDict [("d"%string, VInt 1)] in
  let st' :=
    connected (<[aiogram_bucket := <[100 := (1, Json.dumps (VDict []))]> ∅]>
                 (opened (connected sample_db))) in
  SQLiteStorage.set_bucket (H := Json.serializer) 1 100 (VDict [])
    (connected sample_db) = (Ok tt, st') /\
  SQLiteStorage.get_bucket (H := Json.serializer) 1 100 default st' =
    (Ok (VDict []), st') /\
  PGStorage.set_bucket (H := Json.serializer) 1 100 (VDict [])
    (connected sample_db) = (Ok tt, st') /\
  (Json.dumps (VDict []) ≠ EmptyString ->
   PGStorage.get_bucket (H := Json.serializer) 1 100 default st' =
     (Ok (VDict []), st')).
Proof.
  apply (set_bucket_then_get_bucket (H := Json.serializer)
           (connected sample_db) ∅ 1 100 (VDict [])
           (VDict [("d"%string, VInt 1)]));
    [reflexivity | reflexivity |].
  intros c old Hrow. by rewrite lookup_empty in Hrow.
Defined.

(** X8.  When the text stored for the key does not decode, or decodes to
    a value that is not a mapping, [update_data] raises before it writes:
    the error of [jsonpickle.decode], or the [AttributeError] of the
    missing [update] method, and every table is left as it was.  So does
    [update_bucket] for the text of the bucket row.  Both classes; the
    Postgres class does so for a text that is not empty. *)
Theorem update_raises_before_writing `{Serializer}
    (st : storage) (chat user : Z)
    (partial : option dict) (kwargs : dict) (text : string) :
  (forall d, decode text ≠ Some (VDict d)) ->
  let e := match decode text with
           | Some _ => AttributeError
           | None => DecodeError
           end in
  (forall td : table,
      opened st !! aiogram_data = Some td ->
      stored chat user td = Some text ->
      SQLiteStorage.update_data chat user partial kwargs st =
        (Raise e, connected (opened st)) /\
      (text ≠ EmptyString ->
       PGStorage.update_data chat user partial kwargs st =
         (Raise e, connected (opened st)))) /\
  (forall tb : table,
      opened st !! aiogram_bucket = Some tb ->
      stored chat user tb = Some text ->
      SQLiteStorage.update_bucket chat user partial kwargs st =
        (Raise e, connected (opened st)) /\
      (text ≠ EmptyString ->
       PGStorage.update_bucket chat user partial kwargs st =
         (Raise e, connected (opened st)))).
Proof.
  intros Hnot e.
  assert (Hdata : forall td : table,
             opened st !! aiogram_data = Some td ->
             stored chat user td = Some text ->
             SQLiteStorage.update_data chat user partial kwargs st =
               (Raise e, connected (opened st))).
  { intros td Hd Hsd. unfold SQLiteStorage.update_data, bind.
    rewrite (get_data_run st chat user _ td Hd), Hsd.
    unfold e. destruct (decode text) as [v|]; [|done].
    destruct v as [ |b|n|neg m ex|s|items|entries]; try done.
    by destruct (Hnot entries). }
  assert (Hbucket : forall tb : table,
             opened st !! aiogram_bucket = Some tb ->
             stored chat user tb = Some text ->
             SQLiteStorage.update_bucket chat user partial kwargs st =
               (Raise e, connected (opened st))).
  { intros tb Hb Hsb. unfold SQLiteStorage.update_bucket, bind.
    rewrite (get_bucket_run st chat user _ tb Hb), Hsb.
    unfold e. destruct (decode text) as [v|]; [|done].
    destruct v as [ |b|n|neg m ex|s|items|entries]; try done.
    by destruct (Hnot entries). }
  split.
  - intros td Hd Hsd. split; [by apply (Hdata td)|]. intros Htext.
    rewrite (update_data_agree st chat user partial kwargs td Hd).
    + by apply (Hdata td).
    + rewrite Hsd. by intros [=].
  - intros tb Hb Hsb. split; [by apply (Hbucket tb)|]. intros Htext.
    rewrite (update_bucket_agree st chat user partial kwargs tb Hb).
    + by apply (Hbucket tb).
    + rewrite Hsb. by intros [=].
Qed.

(** X9.  A bucket set to [None] cannot be updated: when the user has no
    bucket row under another chat and the serializer reads the stored
    text back as [None], [update_bucket] after [set_bucket(bucket=None)]
    on the same key raises [AttributeError] and the row keeps the encoding
    of [None].  The SQLite class. *)
Theorem update_bucket_after_none_raises `{Serializer}
    (st : storage) (tb : table) (chat user : Z)
    (partial : option dict) (kwargs : dict) :
  opened st !! aiogram_bucket = Some tb ->
  decode (encode VNone) = Some VNone ->
  (forall c old, tb !! user = Some (c, old) -> c = chat) ->
  (let* _ := SQLiteStorage.set_bucket chat user VNone in
   SQLiteStorage.update_bucket chat user partial kwargs) st =
    (Raise AttributeError,
     connected (<[aiogram_bucket := <[user := (chat, encode VNone)]> tb]>
                  (opened st))).
Proof.
  intros Hb Hround Hchat. unfold bind at 1.
  rewrite (set_bucket_run st chat user VNone tb Hb), upsert_fresh by done.
  unfold SQLiteStorage.update_bucket, bind.
  erewrite get_bucket_run;
    [|by rewrite opened_connected, lookup_insert_eq].
  unfold stored. rewrite lookup_insert_eq, decide_True by done.
  by rewrite Hround.
Qed.

(** On the sample database, with the JSON serializer. *)
Lemma update_bucket_after_none_raises_witness :
  (let* _ := SQLiteStorage.set_bucket (H := Json.serializer) 1 100 VNone in
   SQLiteStorage.update_bucket (H := Json.serializer) 1 100
     (Some [("k"%string, VInt 1)]) []) (connected sample_db) =
    (Raise AttributeError,
     connected (<[aiogram_bucket := <[100 := (1, Json.dumps VNone)]> ∅]>
                  (opened (connected sample_db)))).
Proof.
  apply (update_bucket_after_none_raises (H := Json.serializer)
           (connected sample_db) ∅ 1 100 (Some [("k"%string, VInt 1)]) []);
    [reflexivity | reflexivity |].
  intros c old Hrow. by rewrite lookup_empty in Hrow.
Defined.

(** X10.  [update_bucket] takes the mapping that [get_bucket] finds for
    the key (the empty mapping when there is no row), assigns the items of
    the partial mapping and then the keyword overrides, and upserts the
    encoded result whatever it is: also an empty result leaves the user
    with a bucket row, where [update_data] deletes the data row. *)
Theorem update_bucket_merges `{Serializer}
    (st : storage) (tb td : table) (chat user : Z)
    (partial : option dict) (kwargs cur : dict) :
  opened st !! aiogram_bucket = Some tb ->
  opened st !! aiogram_data = Some td ->
  match stored chat user tb with
  | Some text => decode text = Some (VDict cur)
  | None => cur = []
  end ->
  let merged := dict_update (dict_update cur (default [] partial)) kwargs in
  SQLiteStorage.update_bucket chat user partial kwargs st =
    (Ok tt,
     connected (<[aiogram_bucket :=
                    SQL.upsert user chat (encode (VDict merged)) tb]>
                  (opened st))) /\
  (exists c, SQL.upsert user chat (encode (VDict merged)) tb !! user =
               Some (c, encode (VDict merged))) /\
  (stored chat user td = None ->
   SQLiteStorage.update_data chat user None [] st =
     (Ok tt, connected (<[aiogram_data := td]> (opened st)))).
Proof.
  intros Hb Hd Hcur merged.
  assert (Hget : SQLiteStorage.get_bucket chat user VNone st =
                 (Ok (VDict cur), connected (opened st))).
  { rewrite (get_bucket_run st chat user _ tb Hb).
    destruct (stored chat user tb) as [text|]; by rewrite Hcur. }
  split_and!.
  - unfold SQLiteStorage.update_bucket, bind. rewrite Hget. simpl.
    rewrite (set_bucket_run _ chat user _ tb) by done.
    by destruct partial.
  - rewrite upsert_lookup_eq. eauto.
  - intros Hnone.
    unfold SQLiteStorage.update_data, bind.
    rewrite (get_data_run st chat user _ td Hd), Hnone. simpl.
    rewrite (set_data_run _ chat user _ td) by done. simpl.
    rewrite remaining_spec. by rewrite Hnone.
Qed.

(** For user 200, who has neither bucket nor data in the sample
    database, and an update without items. *)
Lemma update_bucket_merges_witness :
  SQLiteStorage.update_bucket (H := Json.serializer) 2 200 None []
    (connected sample_db) =
    (Ok tt,
     connected (<[aiogram_bucket :=
                    SQL.upsert 200 2 (Json.dumps (VDict [])) ∅]>
                  (opened (connected sample_db)))) /\
  (exists c, SQL.upsert 200 2 (Json.dumps (VDict [])) ∅ !! 200 =
               Some (c, Json.dumps (VDict []))) /\
  (stored 2 200 sample_data = None ->
   SQLiteStorage.update_data (H := Json.serializer) 2 200 None []
     (connected sample_db) =
     (Ok tt, connected (<[aiogram_data := sample_data]>
                          (opened (connected sample_db))))).
Proof.
  apply (update_bucket_merges (H := Json.serializer)
           (connected sample_db) ∅ sample_data 2 200 None [] []);
    reflexivity.
Defined.

(** ** What a write leaves alone *)

Lemma row_at_insert (db : database) (name n : string) (t : table) (u : Z) :
  row_at (<[name := t]> db) n u =
    if decide (n = name) then t !! u else row_at db n u.
Proof.
  unfold row_at. destruct (decide (n = name)) as [->|Hne].
  - by rewrite lookup_insert_eq.
  - by rewrite lookup_insert_ne.
Qed.

Lemma touches_only_refl (name : string) (user : Z) (db : database) :
  touches_only name user db db.
Proof. by split. Qed.

Lemma touches_only_insert (name : string) (user : Z) (db : database)
    (t t' : table) :
  db !! name = Some t ->
  (forall u, u ≠ user -> t' !! u = t !! u) ->
  touches_only name user db (<[name := t']> db).
Proof.
  intros Ht Hrows. split.
  - intros n. destruct (decide (n = name)) as [->|Hne].
    + rewrite lookup_insert_eq, Ht. split; eauto.
    + by rewrite lookup_insert_ne.
  - intros n u Hnu. rewrite row_at_insert.
    destruct (decide (n = name)) as [->|Hne]; [|done].
    unfold row_at. rewrite Ht. simpl. apply Hrows. by destruct Hnu.
Qed.

Lemma keeps_chat_refl (db : database) : keeps_chat db db.
Proof. intros n u c text Hrow. right. eauto. Qed.

Lemma keeps_chat_insert (name : string) (db : database) (t t' : table) :
  db !! name = Some t ->
  (forall u c text,
      t !! u = Some (c, text) ->
      t' !! u = None \/ exists text', t' !! u = Some (c, text')) ->
  keeps_chat db (<[name := t']> db).
Proof.
  intros Ht Hrows n u c text Hrow. rewrite row_at_insert.
  destruct (decide (n = name)) as [->|Hne]; [|right; eauto].
  unfold row_at in Hrow. rewrite Ht in Hrow. by apply (Hrows u c text).
Qed.

Lemma upsert_keeps_chat (user chat : Z) (new : string) (t : table)
    (u c : Z) (text : string) :
  t !! u = Some (c, text) ->
  exists text', SQL.upsert user chat new t !! u = Some (c, text').
Proof.
  intros Hrow. destruct (decide (u = user)) as [->|Hne].
  - rewrite upsert_lookup_eq, Hrow. eauto.
  - rewrite upsert_lookup_ne by done. eauto.
Qed.

Lemma remaining_keeps_chat (user chat : Z) (t : table)
    (u c : Z) (text : string) :
  t !! u = Some (c, text) ->
  SQL.remaining chat user t !! u = None \/
  SQL.remaining chat user t !! u = Some (c, text).
Proof.
  intros Hrow. rewrite remaining_lookup.
  destruct (decide (u = user)) as [->|Hne]; [|by right].
  rewrite Hrow. destruct (decide (c = chat)); [by left|by right].
Qed.

Lemma remaining_lookup_ne (chat user u : Z) (t : table) :
  u ≠ user -> SQL.remaining chat user t !! u = t !! u.
Proof. intros Hne. by rewrite remaining_lookup, decide_False. Qed.

(** What the three plain writes leave behind, table present or not. *)
Lemma set_state_effect (chat user : Z) (state : option string)
    (st : storage) :
  touches_only aiogram_state user (opened st)
    (backend (SQLiteStorage.set_state chat user state st).2) /\
  keeps_chat (opened st)
    (backend (SQLiteStorage.set_state chat user state st).2).
Proof.
  destruct (opened st !! aiogram_state) as [t|] eqn:Ht.
  - rewrite (set_state_run st chat user state t Ht). simpl. split.
    + apply (touches_only_insert _ _ _ t); [done|].
      intros u Hne. destruct state.
      * by apply upsert_lookup_ne.
      * by apply remaining_lookup_ne.
    + apply (keeps_chat_insert _ _ t); [done|].
      intros u c text Hrow. destruct state.
      * right. by eapply upsert_keeps_chat.
      * destruct (remaining_keeps_chat user chat t u c text Hrow); eauto.
  - rewrite set_state_missing by done. simpl.
    split; [apply touches_only_refl|apply keeps_chat_refl].
Qed.

Lemma set_data_effect `{Serializer} (chat user : Z) (data : value)
    (st : storage) :
  touches_only aiogram_data user (opened st)
    (backend (SQLiteStorage.set_data chat user data st).2) /\
  keeps_chat (opened st)
    (backend (SQLiteStorage.set_data chat user data st).2).
Proof.
  destruct (opened st !! aiogram_data) as [t|] eqn:Ht.
  - rewrite (set_data_run st chat user data t Ht). simpl. split.
    + apply (touches_only_insert _ _ _ t); [done|].
      intros u Hne. destruct (truthy data).
      * by apply upsert_lookup_ne.
      * by apply remaining_lookup_ne.
    + apply (keeps_chat_insert _ _ t); [done|].
      intros u c text Hrow. destruct (truthy data).
      * right. by eapply upsert_keeps_chat.
      * destruct (remaining_keeps_chat user chat t u c text Hrow); eauto.
  - rewrite set_data_missing by done. simpl.
    split; [apply touches_only_refl|apply keeps_chat_refl].
Qed.

Lemma set_bucket_effect `{Serializer} (chat user : Z) (bucket : value)
    (st : storage) :
  touches_only aiogram_bucket user (opened st)
    (backend (SQLiteStorage.set_bucket chat user bucket st).2) /\
  keeps_chat (opened st)
    (backend (SQLiteStorage.set_bucket chat user bucket st).2).
Proof.
  destruct (opened st !! aiogram_bucket) as [t|] eqn:Ht.
  - rewrite (set_bucket_run st chat user bucket t Ht). simpl. split.
    + apply (touches_only_insert _ _ _ t); [done|].
      intros u Hne. by apply upsert_lookup_ne.
    + apply (keeps_chat_insert _ _ t); [done|].
      intros u c text Hrow. right. by eapply upsert_keeps_chat.
  - rewrite set_bucket_missing by done. simpl.
    split; [apply touches_only_refl|apply keeps_chat_refl].
Qed.

(** A read leaves the storage as the connection found it. *)
Lemma get_data_storage `{Serializer} (chat user : Z) (default : value)
    (st : storage) :
  (SQLiteStorage.get_data chat user default st).2 = connected (opened st) /\
  (PGStorage.get_data chat user default st).2 = connected (opened st).
Proof.
  unfold SQLiteStorage.get_data, PGStorage.get_data.
  rewrite !bind_get_db. unfold bind, query. simpl.
  destruct (SQL.select_where _ _ _ _) as [rows|e]; [|by split].
  unfold jsonpickle_decode, ret, raise. split.
  - destruct (SQLiteStorage.fetchone rows) as [text|]; [|done].
    by destruct (decode text).
  - destruct (PGStorage.fetchval rows) as [text|]; [|done].
    destruct (String.eqb text EmptyString); simpl; [done|].
    by destruct (decode text).
Qed.

Lemma get_bucket_storage `{Serializer} (chat user : Z) (default : value)
    (st : storage) :
  (SQLiteStorage.get_bucket chat user default st).2 = connected (opened st) /\
  (PGStorage.get_bucket chat user default st).2 = connected (opened st).
Proof.
  unfold SQLiteStorage.get_bucket, PGStorage.get_bucket.
  rewrite !bind_get_db. unfold bind, query. simpl.
  destruct (SQL.select_where _ _ _ _) as [rows|e]; [|by split].
  unfold jsonpickle_decode, ret, raise. split.
  - destruct (SQLiteStorage.fetchone rows) as [text|]; [|done].
    by destruct (decode text).
  - destruct (PGStorage.fetchval rows) as [text|]; [|done].
    destruct (String.eqb text EmptyString); simpl; [done|].
    by destruct (decode text).
Qed.

(** An update ends as it began, or as a [set_] on the opened storage
    ends. *)
Lemma update_data_storage `{Serializer} (chat user : Z)
    (partial : option dict) (kwargs : dict) (st : storage) :
  ((SQLiteStorage.update_data chat user partial kwargs st).2
     = connected (opened st) \/
   exists v, (SQLiteStorage.update_data chat user partial kwargs st).2 =
             (SQLiteStorage.set_data chat user v (connected (opened st))).2) /\
  ((PGStorage.update_data chat user partial kwargs st).2
     = connected (opened st) \/
   exists v, (PGStorage.update_data chat user partial kwargs st).2 =
             (SQLiteStorage.set_data chat user v (connected (opened st))).2).
Proof.
  unfold SQLiteStorage.update_data, PGStorage.update_data, bind.
  destruct (get_data_storage chat user (VDict []) st) as [Hs Hp].
  split.
  - destruct (SQLiteStorage.get_data _ _ _ _) as [[temp|e] st1];
      simpl in Hs; subst st1; [|by left].
    destruct temp; simpl; try by left. right. eauto.
  - destruct (PGStorage.get_data _ _ _ _) as [[temp|e] st1];
      simpl in Hp; subst st1; [|by left].
    destruct temp; simpl; try by left. right.
    eexists. by rewrite set_data_agree.
Qed.

Lemma update_bucket_storage `{Serializer} (chat user : Z)
    (partial : option dict) (kwargs : dict) (st : storage) :
  ((SQLiteStorage.update_bucket chat user partial kwargs st).2
     = connected (opened st) \/
   exists v, (SQLiteStorage.update_bucket chat user partial kwargs st).2 =
             (SQLiteStorage.set_bucket chat user v (connected (opened st))).2)
  /\
  ((PGStorage.update_bucket chat user partial kwargs st).2
     = connected (opened st) \/
   exists v, (PGStorage.update_bucket chat user partial kwargs st).2 =
             (SQLiteStorage.set_bucket chat user v (connected (opened st))).2).
Proof.
  unfold SQLiteStorage.update_bucket, PGStorage.update_bucket, bind.
  destruct (get_bucket_storage chat user VNone st) as [Hs Hp].
  split.
  - destruct (SQLiteStorage.get_bucket _ _ _ _) as [[temp|e] st1];
      simpl in Hs; subst st1; [|by left].
    destruct temp; simpl; try by left. right. eauto.
  - destruct (PGStorage.get_bucket _ _ _ _) as [[temp|e] st1];
      simpl in Hp; subst st1; [|by left].
    destruct temp; simpl; try by left. right.
    eexists. by rewrite set_bucket_agree.
Qed.

(** From the database that the connection finds, a write touches one
    row. *)
Lemma writes_touch_opened `{Serializer}
    (st : storage) (chat user : Z) (state : option string)
    (data bucket : value) (partial : option dict) (kwargs : dict) :
  Forall
    (fun w : string * M unit =>
       touches_only w.1 user (opened st) (backend (w.2 st).2))
    [(aiogram_state, SQLiteStorage.set_state chat user state);
     (aiogram_state, PGStorage.set_state chat user state);
     (aiogram_data, SQLiteStorage.set_data chat user data);
     (aiogram_data, PGStorage.set_data chat user data);
     (aiogram_data, SQLiteStorage.update_data chat user partial kwargs);
     (aiogram_data, PGStorage.update_data chat user partial kwargs);
     (aiogram_bucket, SQLiteStorage.set_bucket chat user bucket);
     (aiogram_bucket, PGStorage.set_bucket chat user bucket);
     (aiogram_bucket, SQLiteStorage.update_bucket chat user partial kwargs);
     (aiogram_bucket, PGStorage.update_bucket chat user partial kwargs)].
Proof.
  destruct (update_data_storage chat user partial kwargs st) as [Hud Hpd].
  destruct (update_bucket_storage chat user partial kwargs st) as [Hub Hpb].
  repeat apply Forall_cons_2; try apply Forall_nil_2; simpl;
    rewrite ?set_state_agree, ?set_data_agree, ?set_bucket_agree.
  - apply set_state_effect.
  - apply set_state_effect.
  - apply set_data_effect.
  - apply set_data_effect.
  - destruct Hud as [->|[v ->]]; [apply touches_only_refl|].
    apply (set_data_effect chat user v (connected (opened st))).
  - destruct Hpd as [->|[v ->]]; [apply touches_only_refl|].
    apply (set_data_effect chat user v (connected (opened st))).
  - apply set_bucket_effect.
  - apply set_bucket_effect.
  - destruct Hub as [->|[v ->]]; [apply touches_only_refl|].
    apply (set_bucket_effect chat user v (connected (opened st))).
  - destruct Hpb as [->|[v ->]]; [apply touches_only_refl|].
    apply (set_bucket_effect chat user v (connected (opened st))).
Qed.

Lemma touches_only_keeps (name : string) (user : Z) (st : storage)
    (db' : database) :
  touches_only name user (opened st) db' ->
  keeps_other_rows name user (backend st) db'.
Proof.
  intros [Htables Hrows]. split.
  - intros n Hn. apply Htables. by apply opened_keeps_tables.
  - intros n u Hnu. rewrite Hrows by done. apply row_at_opened.
Qed.

(** X11.  Every write of both classes touches one row: from the database
    before the call to the database after it, [set_state], [set_data],
    [update_data], [set_bucket] and [update_bucket] for a user drop no
    table and change no row of another user and no row of another table,
    whether they return or raise. *)
Theorem writes_touch_one_row `{Serializer}
    (st : storage) (chat user : Z) (state : option string)
    (data bucket : value) (partial : option dict) (kwargs : dict) :
  Forall
    (fun w : string * M unit =>
       keeps_other_rows w.1 user (backend st) (backend (w.2 st).2))
    [(aiogram_state, SQLiteStorage.set_state chat user state);
     (aiogram_state, PGStorage.set_state chat user state);
     (aiogram_data, SQLiteStorage.set_data chat user data);
     (aiogram_data, PGStorage.set_data chat user data);
     (aiogram_data, SQLiteStorage.update_data chat user partial kwargs);
     (aiogram_data, PGStorage.update_data chat user partial kwargs);
     (aiogram_bucket, SQLiteStorage.set_bucket chat user bucket);
     (aiogram_bucket, PGStorage.set_bucket chat user bucket);
     (aiogram_bucket, SQLiteStorage.update_bucket chat user partial kwargs);
     (aiogram_bucket, PGStorage.update_bucket chat user partial kwargs)].
Proof.
  eapply Forall_impl;
    [apply (writes_touch_opened st chat user state data bucket partial kwargs)|].
  intros w Hw. by apply touches_only_keeps.
Qed.

(** X12.  No write of either class changes the chat of a stored row: the
    row is deleted or keeps the chat it was created with, whatever chat
    the call names. *)
Theorem writes_keep_stored_chat `{Serializer}
    (st : storage) (chat user : Z) (state : option string)
    (data bucket : value) (partial : option dict) (kwargs : dict) :
  Forall
    (fun w : M unit => keeps_chat (opened st) (backend (w st).2))
    [SQLiteStorage.set_state chat user state;
     PGStorage.set_state chat user state;
     SQLiteStorage.set_data chat user data;
     PGStorage.set_data chat user data;
     SQLiteStorage.update_data chat user partial kwargs;
     PGStorage.update_data chat user partial kwargs;
     SQLiteStorage.set_bucket chat user bucket;
     PGStorage.set_bucket chat user bucket;
     SQLiteStorage.update_bucket chat user partial kwargs;
     PGStorage.update_bucket chat user partial kwargs].
Proof.
  destruct (update_data_storage chat user partial kwargs st) as [Hud Hpd].
  destruct (update_bucket_storage chat user partial kwargs st) as [Hub Hpb].
  repeat apply Forall_cons_2; try apply Forall_nil_2; simpl;
    rewrite ?set_state_agree, ?set_data_agree, ?set_bucket_agree.
  - apply set_state_effect.
  - apply set_state_effect.
  - apply set_data_effect.
  - apply set_data_effect.
  - destruct Hud as [->|[v ->]]; [apply keeps_chat_refl|].
    apply (set_data_effect chat user v (connected (opened st))).
  - destruct Hpd as [->|[v ->]]; [apply keeps_chat_refl|].
    apply (set_data_effect chat user v (connected (opened st))).
  - apply set_bucket_effect.
  - apply set_bucket_effect.
  - destruct Hub as [->|[v ->]]; [apply keeps_chat_refl|].
    apply (set_bucket_effect chat user v (connected (opened st))).
  - destruct Hpb as [->|[v ->]]; [apply keeps_chat_refl|].
    apply (set_bucket_effect chat user v (connected (opened st))).
Qed.

(** ** The merge of an update *)

Lemma dict_get_setitem (d : dict) (k k' : string) (v : value) :
  dict_get (dict_setitem d k v) k' =
    if String.eqb k k' then Some v else dict_get d k'.
Proof.
  induction d as [|[k0 v0] d IH]; simpl; [done|].
  destruct (String.eqb_spec k0 k) as [->|Hk0]; simpl.
  - by destruct (String.eqb k k').
  - rewrite IH. destruct (String.eqb_spec k k') as [<-|Hk]; [|done].
    by destruct (String.eqb_spec k0 k).
Qed.

Lemma dict_get_absent (d : dict) (k : string) :
  k ∉ d.*1 -> dict_get d k = None.
Proof.
  induction d as [|[k0 v0] d IH]; simpl; [done|].
  intros Hk. apply not_elem_of_cons in Hk as [Hne Hk].
  destruct (String.eqb_spec k0 k); [done|]. by apply IH.
Qed.

Lemma dict_get_update (d other : dict) (k : string) :
  NoDup other.*1 ->
  dict_get (dict_update d other) k =
    match dict_get other k with
    | Some v => Some v
    | None => dict_get d k
    end.
Proof.
  unfold dict_update. revert d.
  induction other as [|[k0 v0] other IH]; intros d Hnodup; simpl; [done|].
  apply NoDup_cons in Hnodup as [Hk0 Hnodup].
  rewrite IH, dict_get_setitem by done.
  destruct (String.eqb_spec k0 k) as [<-|Hne]; [|done].
  by rewrite dict_get_absent.
Qed.

(** X13.  In the mapping that an update writes, a key holds the value of
    the keyword override when there is one, else the value of the partial
    mapping when it has the key, else the stored value: the overrides win
    over the partial mapping, and both over what is stored. *)
Theorem update_method_precedence
    (cur data kwargs : dict) (st : storage) :
  NoDup data.*1 ->
  NoDup kwargs.*1 ->
  exists merged : dict,
    update_method (VDict cur) data kwargs st = (Ok merged, st) /\
    forall k : string,
      dict_get merged k =
        match dict_get kwargs k with
        | Some v => Some v
        | None =>
            match dict_get data k with
            | Some v => Some v
            | None => dict_get cur k
            end
        end.
Proof.
  intros Hdata Hkwargs. eexists. split; [done|].
  intros k. by rewrite !dict_get_update.
Qed.

(** With the stored mapping of the sample database. *)
Lemma update_method_precedence_witness :
  exists merged : dict,
    update_method (VDict sample_mapping)
      [("b"%string, VInt 3); ("c"%string, VInt 4)]
      [("c"%string, VInt 5)] (connected sample_db) =
      (Ok merged, connected sample_db) /\
    forall k : string,
      dict_get merged k =
        match dict_get [("c"%string, VInt 5)] k with
        | Some v => Some v
        | None =>
            match dict_get [("b"%string, VInt 3); ("c"%string, VInt 4)] k with
            | Some v => Some v
            | None => dict_get sample_mapping k
            end
        end.
Proof.
  apply (update_method_precedence sample_mapping
           [("b"%string, VInt 3); ("c"%string, VInt 4)]
           [("c"%string, VInt 5)] (connected sample_db)); simpl.
  - apply NoDup_cons_2; [|apply NoDup_singleton].
    by intros [=]%list_elem_of_singleton.
  - apply NoDup_singleton.
Defined.

(** ** The list of states after a write *)

(** X14.  [set_state] with a state adds the pair of the call to what
    [get_states_list] returns when the user had no state row, and changes
    nothing in the list when the user had one; [set_state] with a null
    state removes the pair of the call and no other.  Both classes. *)
Theorem get_states_list_after_set_state
    (st : storage) (t : table) (chat user : Z) (state : option string) :
  opened st !! aiogram_state = Some t ->
  exists (l l' : list (Z * Z)) (st' : storage),
    SQLiteStorage.get_states_list st = (Ok l, connected (opened st)) /\
    (let* _ := SQLiteStorage.set_state chat user state in
     SQLiteStorage.get_states_list) st = (Ok l', st') /\
    (let* _ := PGStorage.set_state chat user state in
     PGStorage.get_states_list) st = (Ok l', st') /\
    forall c u : Z,
      (c, u) ∈ l' <->
      match state with
      | Some _ =>
          (c, u) ∈ l \/
          ((c, u) = (chat, user) /\ forall c0, (c0, user) ∉ l)
      | None => (c, u) ∈ l /\ (c, u) ≠ (chat, user)
      end.
Proof.
  intros Ht. eexists _, _, _. unfold bind.
  rewrite set_state_agree, (set_state_run st chat user state t Ht).
  change PGStorage.get_states_list with SQLiteStorage.get_states_list.
  rewrite (get_states_list_run st t Ht).
  erewrite get_states_list_run;
    [|by rewrite opened_connected, lookup_insert_eq].
  split_and!; [done|done|done|].
  intros c u.
  assert (Hnone : (forall c0, (c0, user) ∉
             (fun r : Z * (Z * string) => (r.2.1, r.1)) <$> map_to_list t)
           <-> t !! user = None).
  { split.
    - intros Hall. destruct (t !! user) as [[c0 s0]|] eqn:Hrow; [|done].
      destruct (Hall c0). apply states_list_elem. eauto.
    - intros Hrow c0 [s0 Hs0]%states_list_elem. congruence. }
  destruct state as [s|]; rewrite !states_list_elem.
  - rewrite Hnone. destruct (decide (u = user)) as [->|Hne].
    + rewrite upsert_lookup_eq.
      destruct (t !! user) as [[c0 s0]|] eqn:Hrow.
      * split.
        -- intros [s' [= <-]]. left. eauto.
        -- intros [[s' [= ->]]|[_ [=]]]. eauto.
      * split.
        -- intros [s' [= <-]]. by right.
        -- intros [[s' [=]]|[[= ->] _]]. eauto.
    + rewrite upsert_lookup_ne by done. split; [by left|].
      intros [?|[[= _ ->] _]]; done.
  - rewrite remaining_lookup.
    destruct (decide (u = user)) as [->|Hne].
    + destruct (t !! user) as [[c0 s0]|] eqn:Hrow.
      * destruct (decide (c0 = chat)) as [->|Hc].
        -- split; [by intros [s' [=]]|].
           intros [[s' [= <-]] Hneq]. done.
        -- split.
           ++ intros [s' [= <-]]. split; [eauto|]. by intros [= ->].
           ++ intros [[s' [= <-]] _]. eauto.
      * split; [by intros [s' [=]]|]. by intros [[s' [=]] _].
    + split; [|by intros [? _]].
      intros Hrow. split; [done|]. by intros [= _ ->].
Qed.

(** On the sample database: user 200 sets a first state. *)
Lemma get_states_list_after_set_state_witness :
  exists (l l' : list (Z * Z)) (st' : storage),
    SQLiteStorage.get_states_list (connected sample_db) =
      (Ok l, connected (opened (connected sample_db))) /\
    (let* _ := SQLiteStorage.set_state 2 200 (Some "form"%string) in
     SQLiteStorage.get_states_list) (connected sample_db) = (Ok l', st') /\
    (let* _ := PGStorage.set_state 2 200 (Some "form"%string) in
     PGStorage.get_states_list) (connected sample_db) = (Ok l', st') /\
    forall c u : Z,
      (c, u) ∈ l' <->
      (c, u) ∈ l \/ ((c, u) = (2, 200) /\ forall c0, (c0, 200) ∉ l).
Proof.
  apply (get_states_list_after_set_state (connected sample_db) sample_state
           2 200 (Some "form"%string)).
  reflexivity.
Defined.

(** ** The two classes over a session *)

Lemma nonempty_stored (db : database) (name : string) (t : table)
    (chat user : Z) :
  nonempty_texts db -> db !! name = Some t ->
  stored chat user t ≠ Some EmptyString.
Proof.
  intros Hdb Ht Hs. apply stored_Some in Hs.
  apply (Hdb name user chat EmptyString); [|done].
  unfold row_at. by rewrite Ht.
Qed.

Section Sessions.
Context `{Serializer}.

Lemma reads_alike (st : storage) (chat user : Z) (default : value)
    (state : option string) :
  nonempty_texts (opened st) ->
  PGStorage.get_state chat user state st =
    SQLiteStorage.get_state chat user state st /\
  PGStorage.get_data chat user default st =
    SQLiteStorage.get_data chat user default st /\
  PGStorage.get_bucket chat user default st =
    SQLiteStorage.get_bucket chat user default st.
Proof.
  intros Hdb. split_and!.
  - destruct (opened st !! aiogram_state) as [t|] eqn:Ht.
    + apply (get_state_agree st _ _ _ t Ht). by eapply nonempty_stored.
    + by destruct (get_state_missing chat user state st Ht) as [-> ->].
  - destruct (opened st !! aiogram_data) as [t|] eqn:Ht.
    + apply (get_data_agree st _ _ _ t Ht). by eapply nonempty_stored.
    + unfold PGStorage.get_data, SQLiteStorage.get_data.
      rewrite !bind_get_db. unfold bind, query, SQL.select_where. simpl.
      by rewrite Ht.
  - destruct (opened st !! aiogram_bucket) as [t|] eqn:Ht.
    + apply (get_bucket_agree st _ _ _ t Ht). by eapply nonempty_stored.
    + unfold PGStorage.get_bucket, SQLiteStorage.get_bucket.
      rewrite !bind_get_db. unfold bind, query, SQL.select_where. simpl.
      by rewrite Ht.
Qed.

Lemma updates_alike (st : storage) (chat user : Z)
    (partial : option dict) (kwargs : dict) :
  nonempty_texts (opened st) ->
  PGStorage.update_data chat user partial kwargs st =
    SQLiteStorage.update_data chat user partial kwargs st /\
  PGStorage.update_bucket chat user partial kwargs st =
    SQLiteStorage.update_bucket chat user partial kwargs st.
Proof.
  intros Hdb.
  destruct (reads_alike st chat user (VDict []) None Hdb) as (_ & Hd & _).
  destruct (reads_alike st chat user VNone None Hdb) as (_ & _ & Hb).
  split.
  - unfold PGStorage.update_data, SQLiteStorage.update_data.
    unfold bind at 1 3. rewrite Hd.
    destruct (SQLiteStorage.get_data _ _ _ _) as [[temp|e] st']; [|done].
    unfold bind.
    destruct (update_method temp _ kwargs st') as [[merged|e] st'']; [|done].
    apply set_data_agree.
  - unfold PGStorage.update_bucket, SQLiteStorage.update_bucket.
    unfold bind at 1 3. rewrite Hb.
    destruct (SQLiteStorage.get_bucket _ _ _ _) as [[temp|e] st']; [|done].
    unfold bind.
    destruct (update_method temp _ kwargs st') as [[merged|e] st'']; [|done].
    apply set_bucket_agree.
Qed.

(** X16.  On a storage whose rows hold no empty text, the reads and the
    updates of the two classes return or raise alike and leave the same
    database. *)
Theorem classes_read_alike
    (st : storage) (chat user : Z) (state : option string)
    (default : value) (partial : option dict) (kwargs : dict) :
  nonempty_texts (opened st) ->
  PGStorage.get_state chat user state st =
    SQLiteStorage.get_state chat user state st /\
  PGStorage.get_data chat user default st =
    SQLiteStorage.get_data chat user default st /\
  PGStorage.get_bucket chat user default st =
    SQLiteStorage.get_bucket chat user default st /\
  PGStorage.update_data chat user partial kwargs st =
    SQLiteStorage.update_data chat user partial kwargs st /\
  PGStorage.update_bucket chat user partial kwargs st =
    SQLiteStorage.update_bucket chat user partial kwargs st.
Proof.
  intros Hdb.
  destruct (reads_alike st chat user default state Hdb) as (Hs & Hd & Hb).
  destruct (updates_alike st chat user partial kwargs Hdb) as [Hud Hub].
  by split_and!.
Qed.

Lemma call_alike (c : call) (st : storage) :
  nonempty_texts (opened st) -> pg_call c st = sqlite_call c st.
Proof.
  intros Hdb. destruct c; unfold pg_call, sqlite_call, answering, bind.
  - by rewrite set_state_agree.
  - by destruct (reads_alike st chat user VNone default Hdb) as (-> & _ & _).
  - by rewrite set_data_agree.
  - by destruct (reads_alike st chat user default None Hdb) as (_ & -> & _).
  - by destruct (updates_alike st chat user data kwargs Hdb) as [-> _].
  - by rewrite set_bucket_agree.
  - by destruct (reads_alike st chat user default None Hdb) as (_ & _ & ->).
  - by destruct (updates_alike st chat user bucket kwargs Hdb) as [_ ->].
  - by rewrite reset_all_agree.
  - done.
Qed.

(** The texts after a call. *)

Lemma nonempty_texts_insert (db : database) (name : string) (t t' : table) :
  nonempty_texts db ->
  db !! name = Some t ->
  (forall u c text, t' !! u = Some (c, text) ->
                    t !! u = Some (c, text) \/ text ≠ EmptyString) ->
  nonempty_texts (<[name := t']> db).
Proof.
  intros Hdb Ht Hrows n u c text. rewrite row_at_insert.
  destruct (decide (n = name)) as [->|Hne]; [|apply Hdb].
  intros Hrow. destruct (Hrows u c text Hrow) as [Hold|Hnew]; [|done].
  apply (Hdb name u c text). unfold row_at. by rewrite Ht.
Qed.

Lemma nonempty_texts_delete (db : database) (name : string) :
  nonempty_texts db -> nonempty_texts (delete name db).
Proof.
  intros Hdb n u c text. unfold row_at.
  destruct (decide (n = name)) as [->|Hne].
  - by rewrite lookup_delete_eq.
  - rewrite lookup_delete_ne by done. apply Hdb.
Qed.

Lemma upsert_rows (user chat : Z) (new : string) (t : table)
    (u c : Z) (text : string) :
  new ≠ EmptyString ->
  SQL.upsert user chat new t !! u = Some (c, text) ->
  t !! u = Some (c, text) \/ text ≠ EmptyString.
Proof.
  intros Hnew. destruct (decide (u = user)) as [->|Hne].
  - rewrite upsert_lookup_eq. intros [= _ <-]. by right.
  - rewrite upsert_lookup_ne by done. by left.
Qed.

Lemma remaining_rows (user chat : Z) (t : table)
    (u c : Z) (text : string) :
  SQL.remaining chat user t !! u = Some (c, text) ->
  t !! u = Some (c, text) \/ text ≠ EmptyString.
Proof.
  rewrite remaining_lookup. destruct (decide (u = user)) as [->|Hne].
  - destruct (t !! user) as [[c0 s0]|]; [|done].
    destruct (decide (c0 = chat)); [done|by left].
  - by left.
Qed.

Lemma set_state_texts (chat user : Z) (state : option string)
    (st : storage) :
  nonempty_texts (opened st) ->
  state ≠ Some EmptyString ->
  exists db, (SQLiteStorage.set_state chat user state st).2 = connected db /\
             nonempty_texts db.
Proof.
  intros Hdb Hstate. destruct (opened st !! aiogram_state) as [t|] eqn:Ht.
  - rewrite (set_state_run st chat user state t Ht). eexists. split; [done|].
    apply (nonempty_texts_insert _ _ t); [done|done|].
    intros u c text. destruct state as [s|].
    + apply upsert_rows. congruence.
    + apply remaining_rows.
  - rewrite set_state_missing by done. eauto.
Qed.

Lemma set_data_texts (chat user : Z) (data : value) (st : storage) :
  (forall v, encode v ≠ EmptyString) ->
  nonempty_texts (opened st) ->
  exists db, (SQLiteStorage.set_data chat user data st).2 = connected db /\
             nonempty_texts db.
Proof.
  intros Henc Hdb. destruct (opened st !! aiogram_data) as [t|] eqn:Ht.
  - rewrite (set_data_run st chat user data t Ht). eexists. split; [done|].
    apply (nonempty_texts_insert _ _ t); [done|done|].
    intros u c text. destruct (truthy data).
    + by apply upsert_rows.
    + apply remaining_rows.
  - rewrite set_data_missing by done. eauto.
Qed.

Lemma set_bucket_texts (chat user : Z) (bucket : value) (st : storage) :
  (forall v, encode v ≠ EmptyString) ->
  nonempty_texts (opened st) ->
  exists db, (SQLiteStorage.set_bucket chat user bucket st).2 = connected db /\
             nonempty_texts db.
Proof.
  intros Henc Hdb. destruct (opened st !! aiogram_bucket) as [t|] eqn:Ht.
  - rewrite (set_bucket_run st chat user bucket t Ht). eexists.
    split; [done|].
    apply (nonempty_texts_insert _ _ t); [done|done|].
    intros u c text. by apply upsert_rows.
  - rewrite set_bucket_missing by done. eauto.
Qed.

Lemma reset_all_texts (full : bool) (st : storage) :
  nonempty_texts (opened st) ->
  exists db, (SQLiteStorage.reset_all full st).2 = connected db /\
             nonempty_texts db.
Proof.
  intros Hdb. rewrite reset_all_run. cbv zeta.
  assert (Hend : forall (r : result unit) (db : database),
             nonempty_texts db ->
             exists db', (r, connected db).2 = connected db' /\
                         nonempty_texts db') by eauto.
  destruct (opened st !! aiogram_state); [|by apply Hend].
  destruct full; [|by apply Hend, nonempty_texts_delete].
  destruct (delete aiogram_state (opened st) !! aiogram_data);
    [|by apply Hend, nonempty_texts_delete].
  destruct (delete aiogram_data _ !! aiogram_bucket);
    apply Hend; by repeat apply nonempty_texts_delete.
Qed.

Lemma answering_storage {A} (f : A -> answer) (m : M A) (st : storage) :
  (answering f m st).2 = (m st).2.
Proof. unfold answering, bind, ret. by destruct (m st) as [[a|e] st']. Qed.

Lemma call_texts (c : call) (st : storage) :
  (forall v, encode v ≠ EmptyString) ->
  nonempty_texts (opened st) ->
  ¬ sets_empty_state c ->
  nonempty_texts (opened (sqlite_call c st).2).
Proof.
  intros Henc Hdb Hc.
  assert (Hkept : nonempty_texts (opened (connected (opened st)))) by done.
  destruct c; unfold sqlite_call; rewrite answering_storage.
  - destruct (set_state_texts chat user state st Hdb) as (db & -> & Hdb').
    + intros ->. by apply Hc.
    + done.
  - destruct (opened st !! aiogram_state) as [t|] eqn:Ht.
    + by rewrite (get_state_run st chat user default t Ht).
    + by destruct (get_state_missing chat user default st Ht) as [-> _].
  - by destruct (set_data_texts chat user data st Henc Hdb) as (db & -> & ?).
  - by destruct (get_data_storage chat user default st) as [-> _].
  - destruct (update_data_storage chat user data kwargs st)
      as [[->|[v ->]] _]; [done|].
    by destruct (set_data_texts chat user v (connected (opened st)) Henc Hdb)
      as (db & -> & ?).
  - by destruct (set_bucket_texts chat user bucket st Henc Hdb)
      as (db & -> & ?).
  - by destruct (get_bucket_storage chat user default st) as [-> _].
  - destruct (update_bucket_storage chat user bucket kwargs st)
      as [[->|[v ->]] _]; [done|].
    by destruct (set_bucket_texts chat user v (connected (opened st))
                   Henc Hdb) as (db & -> & ?).
  - by destruct (reset_all_texts full st Hdb) as (db & -> & ?).
  - destruct (opened st !! aiogram_state) as [t|] eqn:Ht.
    + by rewrite (get_states_list_run st t Ht).
    + by rewrite (get_states_list_missing st Ht).
Qed.

Lemma nonempty_texts_opened (st : storage) :
  nonempty_texts (backend st) -> nonempty_texts (opened st).
Proof.
  intros Hdb name u c text. rewrite row_at_opened. apply Hdb.
Qed.

Lemma session_texts (calls : list call) (st : storage) :
  (forall v, encode v ≠ EmptyString) ->
  nonempty_texts (opened st) ->
  Forall (fun c => ¬ sets_empty_state c) calls ->
  nonempty_texts (opened (session sqlite_call calls st).2) /\
  session pg_call calls st = session sqlite_call calls st.
Proof.
  intros Henc Hdb Hcalls. revert st Hdb.
  induction Hcalls as [|c calls Hc _ IH]; intros st Hdb; simpl; [done|].
  rewrite (call_alike c st Hdb).
  pose proof (call_texts c st Henc Hdb Hc) as Hdb'.
  destruct (sqlite_call c st) as [r st']. simpl in Hdb'.
  destruct (IH st' Hdb') as [Htexts ->].
  by destruct (session sqlite_call calls st') as [rs st''].
Qed.

(** X17.  A session of calls on one storage object, the caller going on
    after an exception, writes no empty text: when the serializer never
    writes an empty text, no row holds an empty text at the start and no
    call sets the empty string as a state, no row holds an empty text at
    the end, in both classes. *)
Theorem sessions_keep_texts_nonempty (calls : list call) (st : storage) :
  (forall v, encode v ≠ EmptyString) ->
  nonempty_texts (backend st) ->
  Forall (fun c => ¬ sets_empty_state c) calls ->
  nonempty_texts (backend (session sqlite_call calls st).2) /\
  nonempty_texts (backend (session pg_call calls st).2).
Proof.
  intros Henc Hdb Hcalls.
  destruct (session_texts calls st Henc (nonempty_texts_opened st Hdb) Hcalls)
    as [Htexts ->].
  assert (Hend : nonempty_texts (backend (session sqlite_call calls st).2)).
  { intros name u c text. rewrite <- row_at_opened. apply Htexts. }
  by split.
Qed.

End Sessions.

(** ** Witnesses on the sample databases *)

Lemma sample_db_nonempty_texts : nonempty_texts sample_db.
Proof.
  intros name u c text Hrow. unfold row_at in Hrow.
  apply bind_Some in Hrow as (t & Ht & Hu). unfold sample_db in Ht.
  apply lookup_insert_Some in Ht as [[_ <-]|[_ Ht]].
  { unfold sample_state in Hu.
    apply lookup_singleton_Some in Hu as [_ [= _ <-]]. done. }
  apply lookup_insert_Some in Ht as [[_ <-]|[_ Ht]].
  { unfold sample_data in Hu.
    apply lookup_singleton_Some in Hu as [_ [= _ <-]]. by vm_compute. }
  apply lookup_singleton_Some in Ht as [_ <-].
  by rewrite lookup_empty in Hu.
Qed.

Lemma dumps_nonempty (v : value) : Json.dumps v ≠ EmptyString.
Proof. destruct (dumps_head v) as (c & s & -> & _). done. Qed.

(** On the database in which user 100 holds the text of a list. *)
Lemma update_raises_before_writing_witness :
  SQLiteStorage.update_data (H := Json.serializer) 1 100
    (Some [("k"%string, VInt 1)]) [] (connected list_text_db) =
    (Raise AttributeError, connected (opened (connected list_text_db))) /\
  PGStorage.update_data (H := Json.serializer) 1 100
    (Some [("k"%string, VInt 1)]) [] (connected list_text_db) =
    (Raise AttributeError, connected (opened (connected list_text_db))) /\
  SQLiteStorage.update_bucket (H := Json.serializer) 1 100
    (Some [("k"%string, VInt 1)]) [] (connected list_text_db) =
    (Raise AttributeError, connected (opened (connected list_text_db))) /\
  PGStorage.update_bucket (H := Json.serializer) 1 100
    (Some [("k"%string, VInt 1)]) [] (connected list_text_db) =
    (Raise AttributeError, connected (opened (connected list_text_db))).
Proof.
  destruct (update_raises_before_writing (H := Json.serializer)
              (connected list_text_db) 1 100
              (Some [("k"%string, VInt 1)]) [] "[1]")
    as [Hdata Hbucket].
  - intros d. vm_compute. congruence.
  - destruct (Hdata list_text_table eq_refl eq_refl) as [Hsqlite Hpg].
    destruct (Hbucket list_text_table eq_refl eq_refl) as [Hsqlite' Hpg'].
    split_and!; [exact Hsqlite | by apply Hpg | exact Hsqlite' | by apply Hpg'].
Defined.

(** On the sample database. *)
Lemma classes_read_alike_witness :
  PGStorage.get_state 1 100 None (connected sample_db) =
    SQLiteStorage.get_state 1 100 None (connected sample_db) /\
  PGStorage.get_data (H := Json.serializer) 1 100 VNone
    (connected sample_db) =
    SQLiteStorage.get_data (H := Json.serializer) 1 100 VNone
      (connected sample_db) /\
  PGStorage.get_bucket (H := Json.serializer) 1 100 VNone
    (connected sample_db) =
    SQLiteStorage.get_bucket (H := Json.serializer) 1 100 VNone
      (connected sample_db) /\
  PGStorage.update_data (H := Json.serializer) 1 100 None []
    (connected sample_db) =
    SQLiteStorage.update_data (H := Json.serializer) 1 100 None []
      (connected sample_db) /\
  PGStorage.update_bucket (H := Json.serializer) 1 100 None []
    (connected sample_db) =
    SQLiteStorage.update_bucket (H := Json.serializer) 1 100 None []
      (connected sample_db).
Proof.
  apply (classes_read_alike (H := Json.serializer)
           (connected sample_db) 1 100 None VNone None []).
  exact sample_db_nonempty_texts.
Defined.

(** A session on the sample database that writes, reads, resets and goes
    on after the exception of the last call. *)
Lemma sessions_keep_texts_nonempty_witness :
  let calls :=
    [SetState 2 200 (Some "form"%string);
     GetState 2 200 None;
     UpdateData 1 100 (Some [("b"%string, VInt 3)]) [];
     GetData 1 100 VNone;
     SetBucket 1 100 VNone;
     GetBucket 1 100 VNone;
     ResetAll false;
     GetStatesList] in
  nonempty_texts
    (backend (session (sqlite_call (H := Json.serializer)) calls
                (connected sample_db)).2) /\
  nonempty_texts
    (backend (session (pg_call (H := Json.serializer)) calls
                (connected sample_db)).2).
Proof.
  apply (sessions_keep_texts_nonempty (H := Json.serializer)).
  - exact dumps_nonempty.
  - exact sample_db_nonempty_texts.
  - repeat apply Forall_cons_2; try apply Forall_nil_2; simpl;
      try tauto; discriminate.
Defined.

(** ** Keys without a row, and a second reset *)

(** X18.  A read for a key without a row returns the default and does
    not raise: [get_state] returns its default, [get_data] and
    [get_bucket] return the default when it is a mapping with items and
    the empty mapping otherwise.  A row of the user under another chat
    does not count.  Both classes. *)
Theorem reads_of_missing_key `{Serializer}
    (st : storage) (ts td tb : table) (chat user : Z)
    (state : option string) (default : value) :
  opened st !! aiogram_state = Some ts ->
  opened st !! aiogram_data = Some td ->
  opened st !! aiogram_bucket = Some tb ->
  (forall text, ts !! user ≠ Some (chat, text)) ->
  (forall text, td !! user ≠ Some (chat, text)) ->
  (forall text, tb !! user ≠ Some (chat, text)) ->
  let fallback := if truthy default then default else VDict [] in
  SQLiteStorage.get_state chat user state st =
    (Ok state, connected (opened st)) /\
  PGStorage.get_state chat user state st =
    (Ok state, connected (opened st)) /\
  SQLiteStorage.get_data chat user default st =
    (Ok fallback, connected (opened st)) /\
  PGStorage.get_data chat user default st =
    (Ok fallback, connected (opened st)) /\
  SQLiteStorage.get_bucket chat user default st =
    (Ok fallback, connected (opened st)) /\
  PGStorage.get_bucket chat user default st =
    (Ok fallback, connected (opened st)).
Proof.
  intros Hs Hd Hb Hns Hnd Hnb fallback.
  assert (Hnone : forall t : table,
             (forall text, t !! user ≠ Some (chat, text)) ->
             stored chat user t = None).
  { intros t Ht. destruct (stored chat user t) as [text|] eqn:Hst; [|done].
    apply stored_Some in Hst. by destruct (Ht text). }
  rewrite (get_state_run st _ _ _ ts Hs), (pg_get_state_run st _ _ _ ts Hs).
  rewrite (get_data_run st _ _ _ td Hd), (pg_get_data_run st _ _ _ td Hd).
  rewrite (get_bucket_run st _ _ _ tb Hb), (pg_get_bucket_run st _ _ _ tb Hb).
  by rewrite !Hnone.
Qed.

(** On the sample database, for chat 2 of user 100, who is known under
    chat 1. *)
Lemma reads_of_missing_key_witness :
  let default := VDict [("d"%string, VInt 1)] in
  SQLiteStorage.get_state 2 100 (Some "idle"%string) (connected sample_db) =
    (Ok (Some "idle"%string), connected (opened (connected sample_db))) /\
  PGStorage.get_state 2 100 (Some "idle"%string) (connected sample_db) =
    (Ok (Some "idle"%string), connected (opened (connected sample_db))) /\
  SQLiteStorage.get_data (H := Json.serializer) 2 100 default
    (connected sample_db) =
    (Ok default, connected (opened (connected sample_db))) /\
  PGStorage.get_data (H := Json.serializer) 2 100 default
    (connected sample_db) =
    (Ok default, connected (opened (connected sample_db))) /\
  SQLiteStorage.get_bucket (H := Json.serializer) 2 100 default
    (connected sample_db) =
    (Ok default, connected (opened (connected sample_db))) /\
  PGStorage.get_bucket (H := Json.serializer) 2 100 default
    (connected sample_db) =
    (Ok default, connected (opened (connected sample_db))).
Proof.
  apply (reads_of_missing_key (H := Json.serializer)
           (connected sample_db) sample_state sample_data ∅ 2 100
           (Some "idle"%string) (VDict [("d"%string, VInt 1)]));
    try reflexivity; intros text Hrow; vm_compute in Hrow; congruence.
Defined.

(** X19.  [reset_all(full=True)] after [reset_all(full=False)] on the same
    storage object raises on the state table, which is gone, before it
    reaches the other tables: the data and bucket tables stay, with every
    row.  Both classes. *)
Theorem reset_all_full_after_reset_all
    (st : storage) (ts td tb : table) :
  opened st !! aiogram_state = Some ts ->
  opened st !! aiogram_data = Some td ->
  opened st !! aiogram_bucket = Some tb ->
  exists st1 : storage,
    (let* _ := SQLiteStorage.reset_all false in SQLiteStorage.reset_all true)
      st = (Raise (OperationalError aiogram_state), st1) /\
    (let* _ := PGStorage.reset_all false in PGStorage.reset_all true)
      st = (Raise (OperationalError aiogram_state), st1) /\
    backend st1 !! aiogram_data = Some td /\
    backend st1 !! aiogram_bucket = Some tb.
Proof.
  intros Hs Hd Hb. destruct table_names_distinct as (Hsd & Hsb & Hdb).
  exists (connected (delete aiogram_state (opened st))).
  unfold bind. rewrite !reset_all_agree, reset_all_run, Hs. simpl.
  rewrite reset_all_run, opened_connected, lookup_delete_eq.
  split_and!; try done.
  - rewrite reset_all_agree, reset_all_run, opened_connected.
    by rewrite lookup_delete_eq.
  - by rewrite lookup_delete_ne.
  - by rewrite lookup_delete_ne.
Qed.

(** On the sample database. *)
Lemma reset_all_full_after_reset_all_witness :
  exists st1 : storage,
    (let* _ := SQLiteStorage.reset_all false in SQLiteStorage.reset_all true)
      (connected sample_db) =
      (Raise (OperationalError aiogram_state), st1) /\
    (let* _ := PGStorage.reset_all false in PGStorage.reset_all true)
      (connected sample_db) =
      (Raise (OperationalError aiogram_state), st1) /\
    backend st1 !! aiogram_data = Some sample_data /\
    backend st1 !! aiogram_bucket = Some ∅.
Proof.
  apply (reset_all_full_after_reset_all (connected sample_db)
           sample_state sample_data ∅); reflexivity.
Defined.
